(** * Verification of [plot_decision_boundary] (src/utils.py)

    The repository consists of one function.  It validates a feature matrix
    [X] and a label vector [Y], pads the range of each feature column by one
    unit, samples both ranges with [np.linspace], calls the caller-supplied
    [predict] once per grid cell and hands the filled grid to matplotlib.

    Modelling choices.
    - A scalar is a rational number ([Q]): every finite float and every
      integer is one.  Infinities and NaN are outside the model.
    - The arithmetic the program performs on scalars is a parameter
      ([arith]): the [- 1] and [+ 1] of lines 26-27, which NumPy evaluates in
      the array's own dtype (rounding for floats, wrap-around for fixed-width
      integers), and the float64 operations inside [np.linspace].  Nothing
      is assumed about these operations unless a statement says so; [exact]
      is the arithmetic without rounding.
    - An [ndarray] is a shape tuple together with a flat row-major buffer,
      as NumPy stores it.
    - [predict] is an arbitrary caller-supplied callable returning a scalar:
      it may keep state of its own and it may raise.
    - Python exceptions are values of type [exn]; a computation runs in a
      state-and-error monad whose state (the predictor state and the log of
      external calls) survives an exception, so that what happened before a
      failure stays observable.
    - The NumPy functions used ([min], [max], [linspace], [zeros], indexing)
      follow NumPy's documented behaviour, including the inputs on which
      they raise.  The matplotlib calls are recorded in the log with their
      arguments; [contourf] refuses a grid smaller than 2 by 2 as
      matplotlib's argument check does, and beyond that check matplotlib is
      taken to accept its arguments. *)

From Stdlib Require Import ZArith QArith Qminmax String DecimalString Lia Lqa List.
From stdpp Require Import base list.

Local Open Scope string_scope.
Local Open Scope Q_scope.
Local Open Scope nat_scope.
Local Open Scope list_scope.

(** ** Exceptions, arrays, events *)

Inductive exn : Type :=
| ValueError (msg : string)
| IndexError (msg : string)
| TypeError (msg : string)
| OtherError (msg : string).

Record ndarray : Type := mk_ndarray { shape : list nat; data : list Q }.

(** The buffer of a well-formed array holds one scalar per index. *)
Definition wf_ndarray (a : ndarray) : Prop :=
  length (data a) = fold_right Nat.mul 1 (shape a).

(** Calls that leave the function: every invocation of [predict] (with its
    argument and its outcome) and the four matplotlib calls. *)
Inductive event : Type :=
| EvPredict (arg : list (list Q)) (res : exn + Q)
| EvContourf (xx yy : list Q) (z : list (list Q))
| EvScatter (xs ys c : list Q)
| EvTitle (t : string)
| EvShow.

Definition is_predict (e : event) : bool :=
  match e with EvPredict _ _ => true | _ => false end.

Definition is_render (e : event) : bool := negb (is_predict e).

(** ** Scalar arithmetic *)

(** The operations whose result depends on the number format. *)
Record arith : Type := mk_arith {
  sub_one : Q -> Q;          (* [x - 1] in the dtype of the feature array *)
  add_one : Q -> Q;          (* [x + 1] in the dtype of the feature array *)
  to_float : Q -> Q;         (* conversion to float64 *)
  fsub : Q -> Q -> Q;        (* float64 subtraction *)
  fdiv : Q -> Q -> Q;        (* float64 division *)
  fmul : Q -> Q -> Q;        (* float64 multiplication *)
  fadd : Q -> Q -> Q         (* float64 addition *)
}.

(** Arithmetic without rounding or wrap-around. *)
Definition exact : arith :=
  {| sub_one := fun x => (x - 1)%Q;
     add_one := fun x => (x + 1)%Q;
     to_float := fun x => x;
     fsub := Qminus;
     fdiv := Qdiv;
     fmul := Qmult;
     fadd := Qplus |}.

(** An arithmetic in which adding or subtracting 1 changes nothing, as
    float64 does at 1e16. *)
Definition absorbing : arith :=
  {| sub_one := fun x => x;
     add_one := fun x => x;
     to_float := fun x => x;
     fsub := Qminus;
     fdiv := Qdiv;
     fmul := Qmult;
     fadd := Qplus |}.

(** ** NumPy and Python primitives *)

(** [range(n)]: empty when [n] is not positive. *)
Definition range (n : Z) : list nat := seq 0 (Z.to_nat n).

(** [str(n)] of an integer. *)
Definition str_Z (n : Z) : string := NilZero.string_of_int (Z.to_int n).
Definition str_nat (n : nat) : string := NilZero.string_of_uint (Nat.to_uint n).

(** [a == v], elementwise. *)
Definition np_eq_scalar (a : ndarray) (v : Q) : list bool :=
  map (fun x => Qeq_bool x v) (data a).

Fixpoint np_logical_or (a b : list bool) : list bool :=
  match a, b with
  | x :: a', y :: b' => (x || y) :: np_logical_or a' b'
  | _, _ => []
  end.

Definition np_all (a : list bool) : bool := forallb (fun b => b) a.

(** [a[:, c]] of a rank-2 array. *)
Definition column (a : ndarray) (c : nat) : list Q :=
  let ncols := nth 1 (shape a) 0 in
  map (fun r => nth (r * ncols + c) (data a) 0%Q) (seq 0 (nth 0 (shape a) 0)).

(** [.min()] and [.max()] raise on a zero-size array. *)
Definition np_min (l : list Q) : exn + Q :=
  match l with
  | [] => inl (ValueError "zero-size array to reduction operation minimum which has no identity")
  | x :: l' => inr (fold_left Qmin l' x)
  end.

Definition np_max (l : list Q) : exn + Q :=
  match l with
  | [] => inl (ValueError "zero-size array to reduction operation maximum which has no identity")
  | x :: l' => inr (fold_left Qmax l' x)
  end.

Definition linspace_error (num : Z) : exn :=
  ValueError ("Number of samples, " ++ str_Z num ++ ", must be non-negative.").

(** [np.linspace(start, stop, num)] with the default [endpoint=True].  Both
    ends are converted to float64; the samples are
    [arange(0, num) * step + start] with [step = (stop - start) / (num - 1)]
    (or [arange(0, num) / (num - 1) * (stop - start) + start] when the step
    comes out as 0); the last sample is overwritten by [stop] when
    [num > 1]; a negative [num] is refused. *)
Definition np_linspace (A : arith) (start stop : Q) (num : Z) : exn + list Q :=
  if (num <? 0)%Z then inl (linspace_error num)
  else
    let div := (num - 1)%Z in
    let start := to_float A start in
    let stop := to_float A stop in
    let delta := fsub A stop start in
    let y := map (fun k => inject_Z (Z.of_nat k)) (range num) in
    let y := if (0 <? div)%Z
             then let step := fdiv A delta (inject_Z div) in
                  if Qeq_bool step 0
                  then map (fun v => fmul A (fdiv A v (inject_Z div)) delta) y
                  else map (fun v => fmul A v step) y
             else map (fun v => fmul A v delta) y in
    let y := map (fun v => fadd A v start) y in
    inr (if (1 <? num)%Z then <[length y - 1 := stop]> y else y).

(** [np.zeros((r, c))] as a list of rows. *)
Definition np_zeros (r c : Z) : exn + list (list Q) :=
  if ((r <? 0) || (c <? 0))%Z then inl (ValueError "negative dimensions are not allowed")
  else inr (replicate (Z.to_nat r) (replicate (Z.to_nat c) 0%Q)).

(** ** matplotlib's check of the arguments of [contourf] *)

Definition contourf_shape_error (rows cols : nat) : exn :=
  TypeError ("Input z must be at least a (2, 2) shaped array, but has shape ("
             ++ str_nat rows ++ ", " ++ str_nat cols ++ ")").

Definition contourf_check (xx yy : list Q) (z : list (list Q)) : exn + unit :=
  let rows := length z in
  let cols := length (hd [] z) in
  if (rows <? 2) || (cols <? 2) then inl (contourf_shape_error rows cols)
  else if negb (length xx =? cols)
  then inl (TypeError ("Length of x (" ++ str_nat (length xx)
                       ++ ") must match number of columns in z ("
                       ++ str_nat cols ++ ")"))
  else if negb (length yy =? rows)
  then inl (TypeError ("Length of y (" ++ str_nat (length yy)
                       ++ ") must match number of rows in z ("
                       ++ str_nat rows ++ ")"))
  else inr tt.

(** ** Validation (src/utils.py, lines 17-24) *)

Definition msg_features_shape : string := "X must be ann nx2 array of examples".
Definition msg_labels_rank : string := "Y must be an 1 dimensional array of classifications".
Definition msg_row_count : string := "X and Y must have the same number of rows".
Definition msg_label_domain : string := "All values of Y must be either 0 or 1".

Definition validate (X Y : ndarray) : exn + unit :=
  if negb (length (shape X) =? 2) || negb (nth 1 (shape X) 0 =? 2)
  then inl (ValueError msg_features_shape)
  else if negb (length (shape Y) =? 1)
  then inl (ValueError msg_labels_rank)
  else if negb (nth 0 (shape X) 0 =? nth 0 (shape Y) 0)
  then inl (ValueError msg_row_count)
  else if negb (np_all (np_logical_or (np_eq_scalar Y 0) (np_eq_scalar Y 1)))
  then inl (ValueError msg_label_domain)
  else inr tt.

(** ** Axis bounds (lines 26-27) *)

Definition bounds (A : arith) (X : ndarray) : exn + (Q * Q * (Q * Q)) :=
  match np_min (column X 0) with inl e => inl e | inr lo0 =>
  match np_max (column X 0) with inl e => inl e | inr hi0 =>
  match np_min (column X 1) with inl e => inl e | inr lo1 =>
  match np_max (column X 1) with inl e => inl e | inr hi1 =>
    inr ((sub_one A lo0, add_one A hi0), (sub_one A lo1, add_one A hi1))
  end end end end.

(** ** Grid coordinates (lines 31-32, on the bounds of lines 26-27) *)

Definition axes (A : arith) (X : ndarray) (n_cells : Z) : exn + (list Q * list Q) :=
  match bounds A X with inl e => inl e | inr ((x_min, x_max), (y_min, y_max)) =>
  match np_linspace A x_min x_max n_cells with inl e => inl e | inr xx =>
  match np_linspace A y_min y_max n_cells with inl e => inl e | inr yy =>
    inr (xx, yy)
  end end end.

(** ** The effectful part *)

Section Plot.

Variable A : arith.

(** The caller's predictor: its private state and the callable itself. *)
Context {St : Type}.
Variable predict : list (list Q) -> St -> (exn + Q) * St.

Record world : Type := mk_world { pstate : St; log : list event }.

Definition M (T : Type) : Type := world -> (exn + T) * world.

Definition ret {T} (a : T) : M T := fun w => (inr a, w).

Definition bind {T U} (c : M T) (k : T -> M U) : M U :=
  fun w => match c w with
           | (inl e, w') => (inl e, w')
           | (inr a, w') => k a w'
           end.

Definition lift {T} (r : exn + T) : M T := fun w => (r, w).

Definition emit (e : event) : M unit :=
  fun w => (inr tt, {| pstate := pstate w; log := log w ++ [e] |}).

Notation "x <- c ;; k" := (bind c (fun x => k))
  (at level 100, c at next level, right associativity).
Notation "c ;;; k" := (bind c (fun _ => k))
  (at level 100, right associativity).

(** A Python [for] loop whose body updates a local variable. *)
Fixpoint for_each {T V} (l : list T) (body : T -> V -> M V) (v : V) : M V :=
  match l with
  | [] => ret v
  | a :: l' => v' <- body a v ;; for_each l' body v'
  end.

(** [l[i]] and [g[j, i] = v] raise [IndexError] out of range. *)
Definition getitem {T} (l : list T) (i : nat) : M T :=
  match l !! i with
  | Some a => ret a
  | None => lift (inl (IndexError "index out of bounds"))
  end.

Definition setitem2 (g : list (list Q)) (j i : nat) (v : Q) : M (list (list Q)) :=
  match g !! j with
  | Some row =>
      if i <? length row then ret (<[j := <[i := v]> row]> g)
      else lift (inl (IndexError "index out of bounds"))
  | None => lift (inl (IndexError "index out of bounds"))
  end.

(** One invocation of [predict]; the call is logged whether or not it
    raises. *)
Definition call_predict (arg : list (list Q)) : M Q :=
  fun w => let '(r, s') := predict arg (pstate w) in
           (r, {| pstate := s'; log := log w ++ [EvPredict arg r] |}).

(** Lines 34-36: the nested loop, [i] outermost. *)
Definition fill_cell (xx yy : list Q) (i j : nat) (y_hat : list (list Q))
  : M (list (list Q)) :=
  xi <- getitem xx i ;;
  yj <- getitem yy j ;;
  v <- call_predict [[xi; yj]] ;;
  setitem2 y_hat j i v.

Definition fill_column (xx yy : list Q) (n_cells : Z) (i : nat)
    (y_hat : list (list Q)) : M (list (list Q)) :=
  for_each (range n_cells) (fill_cell xx yy i) y_hat.

Definition fill_grid (xx yy : list Q) (n_cells : Z) (y_hat : list (list Q))
  : M (list (list Q)) :=
  for_each (range n_cells) (fill_column xx yy n_cells) y_hat.

(** Lines 26-36: the two coordinate sequences and the filled grid. *)
Definition compute_grid (X : ndarray) (n_cells : Z)
  : M (list Q * list Q * list (list Q)) :=
  ax <- lift (axes A X n_cells) ;;
  let '(xx, yy) := ax in
  y_hat <- lift (np_zeros n_cells n_cells) ;;
  y_hat <- fill_grid xx yy n_cells y_hat ;;
  ret (xx, yy, y_hat).

(** Line 37: the call is made, and matplotlib checks its arguments. *)
Definition contourf (xx yy : list Q) (z : list (list Q)) : M unit :=
  emit (EvContourf xx yy z) ;;;
  lift (contourf_check xx yy z).

(** Lines 37-43: the hand-off to matplotlib. *)
Definition render (X Y : ndarray) (title : string)
    (g : list Q * list Q * list (list Q)) : M unit :=
  let '(xx, yy, y_hat) := g in
  contourf xx yy y_hat ;;;
  emit (EvScatter (column X 0) (column X 1) (data Y)) ;;;
  emit (EvTitle title) ;;;
  emit EvShow.

Definition plot_decision_boundary (X Y : ndarray) (title : string) (n_cells : Z)
  : M unit :=
  lift (validate X Y) ;;;
  g <- compute_grid X n_cells ;;
  render X Y title g.

End Plot.

Definition default_title : string := "Decision Boundary".
Definition default_n_cells : Z := 50%Z.

(** ** The scenario of the specification *)

Definition features4 : ndarray :=
  mk_ndarray [4; 2] [0; 0; 1; 1; 2; 2; 3; 3]%Q.
Definition labels4 : ndarray := mk_ndarray [4] [0; 0; 1; 1]%Q.

(** [predict(p) = 1 if p[0][0] > 1.5 else 0], a stateless callable. *)
Definition threshold_predict (p : list (list Q)) (s : unit) : (exn + Q) * unit :=
  match p with
  | (x :: _) :: _ => (inr (if Qle_bool x (3 # 2) then 0%Q else 1%Q), s)
  | _ => (inl (IndexError "list index out of range"), s)
  end.

Definition w0 : @world unit := mk_world tt [].

(** ** The four validation constraints, as the specification words them *)

Inductive check : Type := FeaturesShape | LabelsRank | RowCount | LabelDomain.

Definition all_checks : list check := [FeaturesShape; LabelsRank; RowCount; LabelDomain].

(** Position of a check in the order in which the code evaluates them. *)
Definition check_rank (c : check) : nat :=
  match c with FeaturesShape => 0 | LabelsRank => 1 | RowCount => 2 | LabelDomain => 3 end.

Definition violates (c : check) (X Y : ndarray) : Prop :=
  match c with
  | FeaturesShape => ~ exists r, shape X = [r; 2]
  | LabelsRank => ~ exists m, shape Y = [m]
  | RowCount => exists r m, head (shape X) = Some r /\ head (shape Y) = Some m /\ r <> m
  | LabelDomain => exists v, In v (data Y) /\ ~ (v == 0)%Q /\ ~ (v == 1)%Q
  end.

Definition error_of (c : check) : exn :=
  ValueError match c with
             | FeaturesShape => msg_features_shape
             | LabelsRank => msg_labels_rank
             | RowCount => msg_row_count
             | LabelDomain => msg_label_domain
             end.

(** ** Vocabulary for the grid claims *)

(** Cell of a grid at row [j], column [i]. *)
Definition at2 (g : list (list Q)) (j i : nat) : Q := nth i (nth j g []) 0%Q.

(** A square [N] by [N] grid. *)
Definition grid_dims (N : nat) (g : list (list Q)) : Prop :=
  length g = N /\ Forall (fun row => length row = N) g.

(** What calling [predict] on the arguments [args], one after the other from
    state [s], produces: the logged calls and the predictor's final state.
    The sequence ends with the first call that raises. *)
Fixpoint call_seq {St : Type} (predict : list (list Q) -> St -> (exn + Q) * St)
    (args : list (list (list Q))) (s : St) : list event * St :=
  match args with
  | [] => ([], s)
  | a :: rest =>
      match predict a s with
      | (inl e, s') => ([EvPredict a (inl e)], s')
      | (inr v, s') =>
          let '(evs, s'') := call_seq predict rest s' in
          (EvPredict a (inr v) :: evs, s'')
      end
  end.

(** A logged [predict] call that returned a value. *)
Definition is_return (ev : event) : bool :=
  match ev with EvPredict _ (inr _) => true | _ => false end.

(** The records of one run over the coordinate sequences [xx], [yy], in the
    order of the nested loop: column index outermost. *)
Definition grid_args (xx yy : list Q) (n : Z) : list (list (list Q)) :=
  flat_map (fun i => map (fun j => [[nth i xx 0%Q; nth j yy 0%Q]]) (range n)) (range n).

(** None of the calls on [args], made one after the other from state [s],
    raises. *)
Definition no_call_raises {St : Type}
    (predict : list (list Q) -> St -> (exn + Q) * St)
    (args : list (list (list Q))) (s : St) : Prop :=
  forallb is_return (fst (call_seq predict args s)) = true.

(** The predictor's outcome on an argument does not depend on its state. *)
Definition deterministic {St : Type}
    (predict : list (list Q) -> St -> (exn + Q) * St) : Prop :=
  forall a s1 s2, fst (predict a s1) = fst (predict a s2).

(** The [predict] calls of one run over coordinate sequences [xx], [yy] that
    ends with grid [g]: column index outermost, each call paired with the
    cell that holds its result. *)
Definition grid_calls (xx yy : list Q) (g : list (list Q)) (n : Z) : list event :=
  flat_map (fun i =>
    map (fun j => EvPredict [[nth i xx 0%Q; nth j yy 0%Q]] (inr (at2 g j i)))
        (range n))
    (range n).

(** The four matplotlib calls of one run. *)
Definition render_calls (X Y : ndarray) (title : string)
    (xx yy : list Q) (g : list (list Q)) : list event :=
  [EvContourf xx yy g; EvScatter (column X 0) (column X 1) (data Y);
   EvTitle title; EvShow].

(** [m] is a least (greatest) element of [l]. *)
Definition is_min (m : Q) (l : list Q) : Prop :=
  In m l /\ forall x, In x l -> (m <= x)%Q.
Definition is_max (m : Q) (l : list Q) : Prop :=
  In m l /\ forall x, In x l -> (x <= m)%Q.

(** ** Vocabulary for the coordinate sequences *)

Definition strictly_increasing (l : list Q) : Prop :=
  forall i j a b, i < j -> l !! i = Some a -> l !! j = Some b -> (a < b)%Q.

(** [l] starts at [lo] and ends at [hi]. *)
Definition spans (l : list Q) (lo hi : Q) : Prop :=
  exists a b, head l = Some a /\ last l = Some b /\ (a == lo)%Q /\ (b == hi)%Q.

(** What the specification asks of the coordinate sequence built for a
    feature column. *)
Definition axis_ok (l : list Q) (n : Z) (col : list Q) : Prop :=
  length l = Z.to_nat n
  /\ strictly_increasing l
  /\ exists mn mx, is_min mn col /\ is_max mx col /\ spans l (mn - 1) (mx + 1).

Definition axes_ok (A : arith) (X : ndarray) (n : Z) : Prop :=
  exists xx yy, axes A X n = inr (xx, yy)
                /\ axis_ok xx n (column X 0) /\ axis_ok yy n (column X 1).

(** What survives of that under any arithmetic: the length, and the ends of
    the sequence being the bounds as the program computed them. *)
Definition axis_ends (A : arith) (l : list Q) (n : Z) (col : list Q) : Prop :=
  length l = Z.to_nat n
  /\ exists mn mx a b,
       is_min mn col /\ is_max mx col
       /\ head l = Some a /\ last l = Some b
       /\ (a == to_float A (sub_one A mn))%Q
       /\ b = to_float A (add_one A mx).

(** Dividing 0 by a non-zero number and multiplying 0 give 0, and adding 0
    changes nothing: true of float64 on finite operands. *)
Definition zero_laws (A : arith) : Prop :=
  (forall x, ~ x == 0 -> fdiv A 0 x == 0)%Q
  /\ (forall z x, z == 0 -> fadd A z x == x)%Q
  /\ (forall z x, z == 0 -> fmul A z x == 0)%Q.

(** The spacing of [np.linspace] in exact arithmetic and its [k]-th sample
    before the endpoint is overwritten. *)
Definition linspace_step (start stop : Q) (num : Z) : Q :=
  ((stop - start) / inject_Z (num - 1))%Q.
Definition linspace_sample (start stop : Q) (num : Z) (k : nat) : Q :=
  (inject_Z (Z.of_nat k) * linspace_step start stop num + start)%Q.

(** ** Vocabulary for repeated calls *)

(** A computation whose outcome and whose matplotlib calls are the same from
    any two worlds, and which only appends to the log. *)
Definition stable {St T : Type} (c : @M St T) : Prop :=
  forall w1 w2,
    fst (c w1) = fst (c w2)
    /\ exists new1 new2,
         log (snd (c w1)) = log w1 ++ new1
         /\ log (snd (c w2)) = log w2 ++ new2
         /\ List.filter is_render new1 = List.filter is_render new2.

(** ** Vocabulary for runs with an arbitrary predictor *)

(** A logged call that returned a value the predictor does return on that
    argument. *)
Definition returned {St : Type}
    (predict : list (list Q) -> St -> (exn + Q) * St) (ev : event) : Prop :=
  exists a v s, ev = EvPredict a (inr v) /\ fst (predict a s) = inr v.

(** The predictor raises on every argument and in every state. *)
Definition always_raises {St : Type}
    (predict : list (list Q) -> St -> (exn + Q) * St) : Prop :=
  forall a s, exists e s', predict a s = (inl e, s').

(** ** Further concrete inputs *)

(** A 0 by 2 feature matrix and an empty label vector. *)
Definition features0 : ndarray := mk_ndarray [0; 2] [].
Definition labels0 : ndarray := mk_ndarray [0] [].

(** Labels of rank 2, of the wrong length and outside {0, 1}. *)
Definition labels_bad : ndarray := mk_ndarray [3; 1] [2; 2; 2]%Q.

(** Three feature columns. *)
Definition features3col : ndarray := mk_ndarray [2; 3] [0; 0; 0; 1; 1; 1]%Q.
Definition labels2 : ndarray := mk_ndarray [2] [0; 1]%Q.

(** A single feature point. *)
Definition features1 : ndarray := mk_ndarray [1; 2] [5; 0]%Q.
Definition labels1 : ndarray := mk_ndarray [1] [1]%Q.

(** A predictor that returns 0 everywhere. *)
Definition zero_predict (p : list (list Q)) (s : unit) : (exn + Q) * unit :=
  (inr 0%Q, s).

(** A predictor with state: it thresholds the first coordinate like
    [threshold_predict], answers 0 on any other argument, and counts its
    calls. *)
Definition counting_predict (p : list (list Q)) (s : nat) : (exn + Q) * nat :=
  (inr match p with
       | (x :: _) :: _ => if Qle_bool x (3 # 2) then 0%Q else 1%Q
       | _ => 0%Q
       end, S s).

(** A predictor that refuses points right of 3/2 and counts its calls. *)
Definition picky_predict (p : list (list Q)) (s : nat) : (exn + Q) * nat :=
  match p with
  | (x :: _) :: _ =>
      if Qle_bool x (3 # 2) then (inr 0%Q, S s)
      else (inl (OtherError "point out of range"), S s)
  | _ => (inl (IndexError "list index out of range"), S s)
  end.

(** A predictor that always raises. *)
Definition failing_predict (p : list (list Q)) (s : nat) : (exn + Q) * nat :=
  (inl (OtherError "model is not fitted"), S s).

(** A stateless predictor given by a function of the two coordinates; like
    [threshold_predict] it raises on a record of another form. *)
Definition sum_predict (p : list (list Q)) (s : unit) : (exn + Q) * unit :=
  match p with
  | [x; y] :: _ => (inr (x + y)%Q, s)
  | _ => (inl (IndexError "list index out of range"), s)
  end.

Definition min_error : exn :=
  ValueError "zero-size array to reduction operation minimum which has no identity".
(** ** Validation: each test of the code against its constraint *)

Lemma features_shape_test (X : ndarray) :
  negb (length (shape X) =? 2) || negb (nth 1 (shape X) 0 =? 2) = false
  <-> exists r, shape X = [r; 2].
Proof.
  rewrite orb_false_iff, !negb_false_iff, !Nat.eqb_eq. split.
  - destruct (shape X) as [|r [|c [|? ?]]]; simpl; intros [Hl Hc]; try discriminate.
    exists r. now subst c.
  - intros [r ->]. now split.
Qed.

Lemma labels_rank_test (Y : ndarray) :
  negb (length (shape Y) =? 1) = false <-> exists m, shape Y = [m].
Proof.
  rewrite negb_false_iff, Nat.eqb_eq. split.
  - destruct (shape Y) as [|m [|? ?]]; simpl; intros Hl; try discriminate. now exists m.
  - now intros [m ->].
Qed.

Lemma label_domain_forallb (Y : ndarray) :
  np_all (np_logical_or (np_eq_scalar Y 0) (np_eq_scalar Y 1))
  = forallb (fun v => Qeq_bool v 0 || Qeq_bool v 1) (data Y).
Proof.
  unfold np_all, np_eq_scalar. induction (data Y) as [|v l IH]; simpl; [reflexivity|].
  now rewrite IH.
Qed.

Lemma label_domain_test (Y : ndarray) :
  negb (np_all (np_logical_or (np_eq_scalar Y 0) (np_eq_scalar Y 1))) = false
  <-> forall v, In v (data Y) -> (v == 0)%Q \/ (v == 1)%Q.
Proof.
  rewrite negb_false_iff, label_domain_forallb, forallb_forall. split.
  - intros H v Hv. apply H, orb_true_iff in Hv. now rewrite !Qeq_bool_iff in Hv.
  - intros H v Hv. apply orb_true_iff. rewrite !Qeq_bool_iff. now apply H.
Qed.

(** The outcome of [validate] read off the constraints: the first violated
    check in evaluation order decides. *)
Lemma validate_first (X Y : ndarray) (c : check) :
  violates c X Y ->
  (forall c', check_rank c' < check_rank c -> ~ violates c' X Y) ->
  validate X Y = inl (error_of c).
Proof.
  intros Hc Hbefore. unfold validate.
  destruct (negb (length (shape X) =? 2) || negb (nth 1 (shape X) 0 =? 2)) eqn:E1.
  { destruct c; try reflexivity;
      exfalso; apply (Hbefore FeaturesShape); simpl; try lia;
      rewrite <- features_shape_test; congruence. }
  apply features_shape_test in E1 as [r HX].
  destruct (negb (length (shape Y) =? 1)) eqn:E2.
  { destruct c; try reflexivity.
    - exfalso. apply Hc. eauto.
    - exfalso. apply (Hbefore LabelsRank); simpl; try lia.
      rewrite <- labels_rank_test. congruence.
    - exfalso. apply (Hbefore LabelsRank); simpl; try lia.
      rewrite <- labels_rank_test. congruence. }
  apply labels_rank_test in E2 as [m HY].
  rewrite HX, HY. simpl nth.
  destruct (negb (r =? m)) eqn:E3.
  { apply negb_true_iff, Nat.eqb_neq in E3.
    destruct c; try reflexivity.
    - exfalso. apply Hc. eauto.
    - exfalso. apply Hc. eauto.
    - exfalso. apply (Hbefore RowCount); simpl; try lia.
      exists r, m. rewrite HX, HY. auto. }
  apply negb_false_iff, Nat.eqb_eq in E3. subst m.
  destruct (negb (np_all _)) eqn:E4.
  { destruct c; try reflexivity.
    - exfalso. apply Hc. eauto.
    - exfalso. apply Hc. eauto.
    - exfalso. destruct Hc as (r1 & m1 & H1 & H2 & Hne).
      rewrite HX in H1. rewrite HY in H2. simpl in *. congruence. }
  pose proof (proj1 (label_domain_test Y) E4) as Hdom.
  exfalso. destruct c; simpl in Hc.
  - apply Hc. eauto.
  - apply Hc. eauto.
  - destruct Hc as (r1 & m1 & H1 & H2 & Hne).
    rewrite HX in H1. rewrite HY in H2. simpl in *. congruence.
  - destruct Hc as (v & Hv & H0 & H1). destruct (Hdom v Hv); contradiction.
Qed.

(** What a successful validation establishes. *)
Lemma validate_ok_inv (X Y : ndarray) :
  validate X Y = inr tt ->
  exists r, shape X = [r; 2] /\ shape Y = [r]
            /\ forall v, In v (data Y) -> (v == 0)%Q \/ (v == 1)%Q.
Proof.
  unfold validate.
  destruct (negb (length (shape X) =? 2) || negb (nth 1 (shape X) 0 =? 2)) eqn:E1;
    [discriminate|].
  destruct (negb (length (shape Y) =? 1)) eqn:E2; [discriminate|].
  apply features_shape_test in E1 as [r HX]. apply labels_rank_test in E2 as [m HY].
  rewrite HX, HY. simpl nth.
  destruct (negb (r =? m)) eqn:E3; [discriminate|].
  apply negb_false_iff, Nat.eqb_eq in E3. subst m.
  destruct (negb (np_all _)) eqn:E4; [discriminate|].
  intros _. exists r. repeat split; auto. now apply (proj1 (label_domain_test Y)).
Qed.

Lemma validate_ok_no_violation (X Y : ndarray) (c : check) :
  validate X Y = inr tt -> ~ violates c X Y.
Proof.
  intros Hok Hc. apply validate_ok_inv in Hok as (r & HX & HY & Hdom).
  destruct c; simpl in Hc.
  - apply Hc. eauto.
  - apply Hc. eauto.
  - destruct Hc as (r1 & m1 & H1 & H2 & Hne).
    rewrite HX in H1. rewrite HY in H2. simpl in *. congruence.
  - destruct Hc as (v & Hv & H0 & H1). destruct (Hdom v Hv); contradiction.
Qed.

(** Every rejection is the error of a violated check that no earlier check
    precedes. *)
Lemma validate_error_inv (X Y : ndarray) (e : exn) :
  validate X Y = inl e ->
  exists c, violates c X Y
            /\ (forall c', check_rank c' < check_rank c -> ~ violates c' X Y)
            /\ e = error_of c.
Proof.
  unfold validate.
  destruct (negb (length (shape X) =? 2) || negb (nth 1 (shape X) 0 =? 2)) eqn:E1.
  { intros [= <-]. exists FeaturesShape. repeat split; simpl; try lia.
    rewrite <- features_shape_test. congruence. }
  destruct (negb (length (shape Y) =? 1)) eqn:E2.
  { intros [= <-]. exists LabelsRank. repeat split.
    - simpl. rewrite <- labels_rank_test. congruence.
    - intros [] Hlt; simpl in Hlt; try lia. simpl.
      rewrite <- features_shape_test. tauto. }
  pose proof E1 as E1'. pose proof E2 as E2'.
  apply features_shape_test in E1 as [r HX]. apply labels_rank_test in E2 as [m HY].
  rewrite HX, HY. simpl nth.
  destruct (negb (r =? m)) eqn:E3.
  { apply negb_true_iff, Nat.eqb_neq in E3.
    intros [= <-]. exists RowCount. repeat split.
    - exists r, m. rewrite HX, HY. auto.
    - intros [] Hlt; simpl in Hlt; try lia; simpl.
      + rewrite <- features_shape_test. tauto.
      + rewrite <- labels_rank_test. tauto. }
  apply negb_false_iff, Nat.eqb_eq in E3. subst m.
  destruct (negb (np_all _)) eqn:E4; [|discriminate].
  intros [= <-]. exists LabelDomain. repeat split.
  - simpl. destruct (data Y) as [|] eqn:Hd.
    + rewrite label_domain_forallb, Hd in E4. discriminate.
    + rewrite <- Hd in *. clear Hd.
      rewrite label_domain_forallb in E4. apply negb_true_iff in E4.
      assert (Hex : existsb (fun v => negb (Qeq_bool v 0 || Qeq_bool v 1)) (data Y) = true).
      { revert E4. induction (data Y) as [|v l' IH]; simpl; [discriminate|].
        destruct (Qeq_bool v 0 || Qeq_bool v 1); simpl; auto. }
      apply existsb_exists in Hex as (v & Hv & Hn).
      apply negb_true_iff, orb_false_iff in Hn as [H0 H1].
      exists v. repeat split; auto.
      * intros Heq. apply Qeq_bool_iff in Heq. congruence.
      * intros Heq. apply Qeq_bool_iff in Heq. congruence.
  - intros [] Hlt; simpl in Hlt; try lia; simpl.
    + rewrite <- features_shape_test. tauto.
    + rewrite <- labels_rank_test. tauto.
    + intros (r1 & m1 & H1 & H2 & Hne).
      rewrite HX in H1. rewrite HY in H2. simpl in *. congruence.
Qed.

Lemma validate_no_violation_ok (X Y : ndarray) :
  (forall c, ~ violates c X Y) -> validate X Y = inr tt.
Proof.
  intros Hnone. destruct (validate X Y) as [e|[]] eqn:E; [|reflexivity].
  apply validate_error_inv in E as (c & Hc & _). now apply Hnone in Hc.
Qed.

Lemma error_of_inj (c c' : check) : error_of c = error_of c' -> c = c'.
Proof. destruct c, c'; simpl; intros H; try reflexivity; discriminate H. Qed.

(** ** NumPy primitives *)

Lemma Qmin_cases (x a : Q) :
  (Qmin x a = x \/ Qmin x a = a) /\ (Qmin x a <= x)%Q /\ (Qmin x a <= a)%Q.
Proof.
  unfold Qmin, GenericMinMax.gmin. destruct (x ?= a)%Q eqn:E.
  - apply Qeq_alt in E. split; [auto|]. split; [apply Qle_refl|].
    rewrite E. apply Qle_refl.
  - apply Qlt_alt in E. split; [auto|]. split; [apply Qle_refl|].
    now apply Qlt_le_weak.
  - apply Qgt_alt in E. split; [auto|]. split; [|apply Qle_refl].
    now apply Qlt_le_weak.
Qed.

Lemma Qmax_cases (x a : Q) :
  (Qmax x a = x \/ Qmax x a = a) /\ (x <= Qmax x a)%Q /\ (a <= Qmax x a)%Q.
Proof.
  unfold Qmax, GenericMinMax.gmax. destruct (x ?= a)%Q eqn:E.
  - apply Qeq_alt in E. split; [auto|]. split; [apply Qle_refl|].
    rewrite E. apply Qle_refl.
  - apply Qlt_alt in E. split; [auto|]. split; [|apply Qle_refl].
    now apply Qlt_le_weak.
  - apply Qgt_alt in E. split; [auto|]. split; [apply Qle_refl|].
    now apply Qlt_le_weak.
Qed.

Lemma fold_Qmin_spec (l : list Q) (x : Q) :
  In (fold_left Qmin l x) (x :: l)
  /\ (fold_left Qmin l x <= x)%Q
  /\ forall y, In y l -> (fold_left Qmin l x <= y)%Q.
Proof.
  revert x. induction l as [|a l IH]; intros x; simpl.
  - split; [auto|]. split; [apply Qle_refl|]. intros y [].
  - destruct (IH (Qmin x a)) as (Hin & Hle & Hall).
    destruct (Qmin_cases x a) as (Hsel & Hx & Ha).
    split; [|split].
    + destruct Hin as [Hin|Hin]; [|auto].
      rewrite <- Hin. destruct Hsel as [E|E]; rewrite E; auto.
    + eapply Qle_trans; eauto.
    + intros y [<-|Hy]; [|auto]. eapply Qle_trans; eauto.
Qed.

Lemma fold_Qmax_spec (l : list Q) (x : Q) :
  In (fold_left Qmax l x) (x :: l)
  /\ (x <= fold_left Qmax l x)%Q
  /\ forall y, In y l -> (y <= fold_left Qmax l x)%Q.
Proof.
  revert x. induction l as [|a l IH]; intros x; simpl.
  - split; [auto|]. split; [apply Qle_refl|]. intros y [].
  - destruct (IH (Qmax x a)) as (Hin & Hle & Hall).
    destruct (Qmax_cases x a) as (Hsel & Hx & Ha).
    split; [|split].
    + destruct Hin as [Hin|Hin]; [|auto].
      rewrite <- Hin. destruct Hsel as [E|E]; rewrite E; auto.
    + eapply Qle_trans; eauto.
    + intros y [<-|Hy]; [|auto]. eapply Qle_trans; eauto.
Qed.

Lemma np_min_spec (l : list Q) :
  l <> [] -> exists m, np_min l = inr m /\ is_min m l.
Proof.
  destruct l as [|x l]; [congruence|]. intros _.
  exists (fold_left Qmin l x). split; [reflexivity|].
  destruct (fold_Qmin_spec l x) as (Hin & Hle & Hall).
  split; auto. intros y [<-|Hy]; auto.
Qed.

Lemma np_max_spec (l : list Q) :
  l <> [] -> exists m, np_max l = inr m /\ is_max m l.
Proof.
  destruct l as [|x l]; [congruence|]. intros _.
  exists (fold_left Qmax l x). split; [reflexivity|].
  destruct (fold_Qmax_spec l x) as (Hin & Hle & Hall).
  split; auto. intros y [<-|Hy]; auto.
Qed.

Lemma length_column (a : ndarray) (c : nat) :
  length (column a c) = nth 0 (shape a) 0.
Proof. unfold column. now rewrite length_map, length_seq. Qed.

Lemma column_nonempty (a : ndarray) (c : nat) :
  nth 0 (shape a) 0 <> 0 -> column a c <> [].
Proof.
  intros Hr Hnil. apply (f_equal (@length Q)) in Hnil.
  rewrite length_column in Hnil. simpl in Hnil. contradiction.
Qed.

(** On a matrix with at least one row both bounds exist: the column extrema
    with 1 subtracted and added by the arithmetic at hand. *)
Lemma bounds_spec (A : arith) (X : ndarray) :
  nth 0 (shape X) 0 <> 0 ->
  exists lo0 hi0 lo1 hi1,
    bounds A X = inr ((sub_one A lo0, add_one A hi0), (sub_one A lo1, add_one A hi1))
    /\ is_min lo0 (column X 0) /\ is_max hi0 (column X 0)
    /\ is_min lo1 (column X 1) /\ is_max hi1 (column X 1).
Proof.
  intros Hr. unfold bounds.
  destruct (np_min_spec _ (column_nonempty X 0 Hr)) as (lo0 & -> & Hlo0).
  destruct (np_max_spec _ (column_nonempty X 0 Hr)) as (hi0 & -> & Hhi0).
  destruct (np_min_spec _ (column_nonempty X 1 Hr)) as (lo1 & -> & Hlo1).
  destruct (np_max_spec _ (column_nonempty X 1 Hr)) as (hi1 & -> & Hhi1).
  exists lo0, hi0, lo1, hi1. auto.
Qed.

Lemma bounds_no_rows (A : arith) (X : ndarray) :
  nth 0 (shape X) 0 = 0 -> bounds A X = inl min_error.
Proof. intros Hr. unfold bounds, column. now rewrite Hr. Qed.

Lemma np_linspace_length (A : arith) (start stop : Q) (num : Z) :
  (0 <= num)%Z ->
  exists xx, np_linspace A start stop num = inr xx /\ length xx = Z.to_nat num.
Proof.
  intros Hn. unfold np_linspace.
  destruct (num <? 0)%Z eqn:E; [apply Z.ltb_lt in E; lia|].
  eexists. split; [reflexivity|].
  assert (Hlen : forall f g : Q -> Q,
             length (map f (map g (map (fun k => inject_Z (Z.of_nat k)) (range num))))
             = Z.to_nat num).
  { intros f g. unfold range. now rewrite !length_map, length_seq. }
  destruct (1 <? num)%Z, (0 <? num - 1)%Z;
    try destruct (Qeq_bool _ 0); rewrite ?length_insert; apply Hlen.
Qed.

Lemma np_linspace_negative (A : arith) (start stop : Q) (num : Z) :
  (num < 0)%Z -> np_linspace A start stop num = inl (linspace_error num).
Proof. intros Hn. unfold np_linspace. apply Z.ltb_lt in Hn. now rewrite Hn. Qed.

(** With two or more samples the last one is the upper end, as converted. *)
Lemma np_linspace_last (A : arith) (start stop : Q) (num : Z) (xx : list Q) :
  (2 <= num)%Z -> np_linspace A start stop num = inr xx ->
  last xx = Some (to_float A stop).
Proof.
  intros Hn Hxx. unfold np_linspace in Hxx.
  destruct (num <? 0)%Z eqn:E0; [apply Z.ltb_lt in E0; lia|].
  destruct (1 <? num)%Z eqn:E1; [|apply Z.ltb_ge in E1; lia].
  injection Hxx as <-.
  set (y := map _ _).
  assert (Hlen : length y = Z.to_nat num).
  { unfold y. destruct (0 <? num - 1)%Z; try destruct (Qeq_bool _ 0);
      unfold range; now rewrite !length_map, length_seq. }
  rewrite last_lookup, length_insert.
  replace (Init.Nat.pred (length y)) with (length y - 1) by lia.
  apply list_lookup_insert_eq. lia.
Qed.

(** With two or more samples the first one is the lower end, as converted,
    under the zero laws. *)
Lemma np_linspace_head (A : arith) (start stop : Q) (num : Z) (xx : list Q) :
  zero_laws A -> (2 <= num)%Z -> np_linspace A start stop num = inr xx ->
  exists a, head xx = Some a /\ (a == to_float A start)%Q.
Proof.
  intros (Hdiv & Hadd & Hmul) Hn Hxx. unfold np_linspace in Hxx.
  destruct (num <? 0)%Z eqn:E0; [apply Z.ltb_lt in E0; lia|].
  destruct (1 <? num)%Z eqn:E1; [|apply Z.ltb_ge in E1; lia].
  destruct (0 <? num - 1)%Z eqn:E2; [|apply Z.ltb_ge in E2; lia].
  injection Hxx as <-.
  assert (Hr : range num = 0 :: seq 1 (Z.to_nat num - 1)).
  { unfold range. destruct (Z.to_nat num) as [|m] eqn:Em; [lia|].
    simpl. now rewrite Nat.sub_0_r. }
  rewrite Hr.
  destruct (Qeq_bool _ 0); cbn [map length]; rewrite head_lookup;
    (rewrite list_lookup_insert_ne
       by (rewrite !length_map, length_seq; lia)); cbn [lookup list_lookup];
    eexists; (split; [reflexivity|]).
  - apply Hadd, Hmul, Hdiv. intros H. unfold Qeq in H. simpl in H. lia.
  - apply Hadd, Hmul. reflexivity.
Qed.

Lemma axes_length (A : arith) (X : ndarray) (n : Z) :
  nth 0 (shape X) 0 <> 0 -> (0 <= n)%Z ->
  exists xx yy, axes A X n = inr (xx, yy)
                /\ length xx = Z.to_nat n /\ length yy = Z.to_nat n.
Proof.
  intros Hr Hn. unfold axes.
  destruct (bounds_spec A X Hr) as (lo0 & hi0 & lo1 & hi1 & -> & _).
  destruct (np_linspace_length A (sub_one A lo0) (add_one A hi0) n Hn) as (xx & -> & Lxx).
  destruct (np_linspace_length A (sub_one A lo1) (add_one A hi1) n Hn) as (yy & -> & Lyy).
  now exists xx, yy.
Qed.

Lemma np_zeros_dims (n : Z) :
  (0 <= n)%Z ->
  np_zeros n n = inr (replicate (Z.to_nat n) (replicate (Z.to_nat n) 0%Q))
  /\ grid_dims (Z.to_nat n) (replicate (Z.to_nat n) (replicate (Z.to_nat n) 0%Q)).
Proof.
  intros Hn. unfold np_zeros.
  destruct (n <? 0)%Z eqn:E; [apply Z.ltb_lt in E; lia|]. simpl.
  split; [reflexivity|]. split.
  - apply length_replicate.
  - apply Forall_replicate, length_replicate.
Qed.

(** ** Grid cells under an in-place update *)

Lemma at2_insert_eq (g : list (list Q)) (j i : nat) (row : list Q) (v : Q) :
  g !! j = Some row -> i < length row ->
  at2 (<[j := <[i := v]> row]> g) j i = v.
Proof.
  intros Hj Hi. unfold at2.
  rewrite (nth_lookup_Some _ _ _ (<[i := v]> row))
    by (apply list_lookup_insert_eq; eapply lookup_lt_Some; eauto).
  apply nth_lookup_Some. now apply list_lookup_insert_eq.
Qed.

Lemma at2_insert_ne (g : list (list Q)) (j i : nat) (row : list Q) (v : Q)
    (j' i' : nat) :
  g !! j = Some row -> j' <> j \/ i' <> i ->
  at2 (<[j := <[i := v]> row]> g) j' i' = at2 g j' i'.
Proof.
  intros Hj Hne. unfold at2. destruct (decide (j' = j)) as [->|Hjj].
  - rewrite (nth_lookup_Some _ _ _ (<[i := v]> row))
      by (apply list_lookup_insert_eq; eapply lookup_lt_Some; eauto).
    rewrite (nth_lookup_Some g j [] row) by assumption.
    rewrite !nth_lookup, list_lookup_insert_ne; [reflexivity|].
    destruct Hne; congruence.
  - rewrite !(nth_lookup _ j'), list_lookup_insert_ne by congruence. reflexivity.
Qed.

Lemma grid_dims_insert (N : nat) (g : list (list Q)) (j i : nat) (row : list Q) (v : Q) :
  grid_dims N g -> g !! j = Some row -> grid_dims N (<[j := <[i := v]> row]> g).
Proof.
  intros [Hl Hr] Hj. split.
  - now rewrite length_insert.
  - apply Forall_insert; auto. rewrite length_insert.
    rewrite Forall_lookup in Hr. exact (Hr _ _ Hj).
Qed.

Lemma grid_dims_hd (N : nat) (g : list (list Q)) :
  grid_dims N g -> length (hd [] g) = N.
Proof.
  intros [Hl Hr]. destruct g as [|row g]; simpl in *; [exact Hl|].
  now inversion Hr.
Qed.

(** ** Sequences of [predict] calls *)

Section CallSeq.

Context {St : Type}.
Variable predict : list (list Q) -> St -> (exn + Q) * St.

Lemma call_seq_app (l1 l2 : list (list (list Q))) (s : St) :
  call_seq predict (l1 ++ l2) s
  = let '(e1, s1) := call_seq predict l1 s in
    if forallb is_return e1
    then let '(e2, s2) := call_seq predict l2 s1 in (e1 ++ e2, s2)
    else (e1, s1).
Proof.
  revert s. induction l1 as [|a l1 IH]; intros s; simpl.
  - now destruct (call_seq predict l2 s).
  - destruct (predict a s) as [[e|v] s']; [reflexivity|].
    rewrite IH. destruct (call_seq predict l1 s') as [e1 s1]. simpl.
    destruct (forallb is_return e1); [|reflexivity].
    now destruct (call_seq predict l2 s1).
Qed.

(** Every logged call is on one of the arguments, with an outcome the
    predictor has on it. *)
Lemma call_seq_sound (args : list (list (list Q))) (s : St) :
  Forall (fun ev => exists a r s0,
            In a args /\ ev = EvPredict a r /\ fst (predict a s0) = r)
         (fst (call_seq predict args s)).
Proof.
  revert s. induction args as [|a args IH]; intros s; simpl; [constructor|].
  destruct (predict a s) as [[e|v] s'] eqn:Hp.
  - simpl. constructor; [|constructor]. exists a, (inl e), s. rewrite Hp. auto.
  - specialize (IH s'). destruct (call_seq predict args s') as [evs s'']. simpl in *.
    constructor.
    + exists a, (inr v), s. rewrite Hp. auto.
    + eapply Forall_impl; [exact IH|]. intros ev (a' & r & s0 & Hin & Hev & Hr).
      exists a', r, s0. auto.
Qed.

Lemma call_seq_returned (args : list (list (list Q))) (s : St) :
  forallb is_return (fst (call_seq predict args s)) = true ->
  Forall (returned predict) (fst (call_seq predict args s)).
Proof.
  intros Hall. pose proof (call_seq_sound args s) as Hs.
  rewrite forallb_forall in Hall. rewrite List.Forall_forall in Hs |- *.
  intros ev Hev. destruct (Hs ev Hev) as (a & r & s0 & _ & -> & Hr).
  specialize (Hall _ Hev). destruct r as [e|v]; [discriminate|].
  now exists a, v, s0.
Qed.

Lemma call_seq_prefix_returned (args : list (list (list Q))) (s : St)
    (calls : list event) (ev : event) :
  fst (call_seq predict args s) = calls ++ [ev] ->
  forallb is_return calls = true ->
  Forall (returned predict) calls.
Proof.
  intros Heq Hall. pose proof (call_seq_sound args s) as Hs. rewrite Heq in Hs.
  apply Forall_app in Hs as [Hs _].
  rewrite forallb_forall in Hall. rewrite List.Forall_forall in Hs |- *.
  intros ev' Hev. destruct (Hs ev' Hev) as (a & r & s0 & _ & -> & Hr).
  specialize (Hall _ Hev). destruct r as [e|v]; [discriminate|].
  now exists a, v, s0.
Qed.

Lemma call_seq_last_raised (args : list (list (list Q))) (s : St)
    (calls : list event) (arg : list (list Q)) (e : exn) :
  fst (call_seq predict args s) = calls ++ [EvPredict arg (inl e)] ->
  In arg args /\ exists s0, fst (predict arg s0) = inl e.
Proof.
  intros Heq. pose proof (call_seq_sound args s) as Hs. rewrite Heq in Hs.
  apply Forall_app in Hs as [_ Hs].
  inversion Hs as [|? ? (a & r & s0 & Hin & Hev & Hr) _].
  injection Hev as <- <-. split; [exact Hin|]. now exists s0.
Qed.

End CallSeq.

Lemma forallb_is_return_map {T : Type} (f : T -> list (list Q)) (v : T -> Q) (l : list T) :
  forallb is_return (map (fun j => EvPredict (f j) (inr (v j))) l) = true.
Proof. induction l as [|a l IH]; simpl; auto. Qed.

Lemma forallb_is_return_raise (calls : list event) (arg : list (list Q)) (e : exn) :
  forallb is_return (calls ++ [EvPredict arg (inl e)]) = false.
Proof.
  rewrite forallb_app. simpl. now rewrite andb_false_r.
Qed.

Lemma forallb_is_return_grid_calls (xx yy : list Q) (g : list (list Q)) (n : Z) :
  forallb is_return (grid_calls xx yy g n) = true.
Proof.
  unfold grid_calls. induction (range n) as [|i l IH] at 2; simpl; [reflexivity|].
  now rewrite forallb_app, IH, forallb_is_return_map.
Qed.

Lemma world_eta {St : Type} (w : @world St) : mk_world (pstate w) (log w) = w.
Proof. now destruct w. Qed.

(** ** The nested loop, for an arbitrary predictor *)

Section FillGrid.

Context {St : Type}.
Variable predict : list (list Q) -> St -> (exn + Q) * St.

Lemma fill_cell_raise (xx yy : list Q) (i j : nat) (xi yj : Q) (e : exn) (s' : St)
    (g : list (list Q)) (w : world) :
  xx !! i = Some xi -> yy !! j = Some yj ->
  predict [[xi; yj]] (pstate w) = (inl e, s') ->
  fill_cell predict xx yy i j g w
  = (inl e, mk_world s' (log w ++ [EvPredict [[xi; yj]] (inl e)])).
Proof.
  intros Hx Hy Hp. unfold fill_cell, bind, getitem, call_predict, ret.
  now rewrite Hx, Hy, Hp.
Qed.

Lemma fill_cell_return (xx yy : list Q) (i j : nat) (xi yj : Q) (row : list Q)
    (v : Q) (s' : St) (g : list (list Q)) (w : world) :
  xx !! i = Some xi -> yy !! j = Some yj ->
  g !! j = Some row -> i < length row ->
  predict [[xi; yj]] (pstate w) = (inr v, s') ->
  fill_cell predict xx yy i j g w
  = (inr (<[j := <[i := v]> row]> g),
     mk_world s' (log w ++ [EvPredict [[xi; yj]] (inr v)])).
Proof.
  intros Hx Hy Hg Hi Hp.
  unfold fill_cell, bind, getitem, call_predict, setitem2, ret.
  rewrite Hx, Hy, Hp, Hg.
  apply Nat.ltb_lt in Hi. now rewrite Hi.
Qed.

(** Inner loop.  What it logs and the state it leaves are those of calling
    [predict] on the records of column [i], row after row; either every
    call returns and the column is filled at the rows [js], or the loop ends
    with the first call that raises. *)
Lemma fill_cells_outcome (xx yy : list Q) (i : nat) (xi : Q) (N : nat) (js : list nat) :
  xx !! i = Some xi -> length yy = N -> i < N ->
  forall (g : list (list Q)) (w : world),
    List.NoDup js -> Forall (fun j => j < N) js -> grid_dims N g ->
    exists r evs s',
      call_seq predict (map (fun j => [[xi; nth j yy 0%Q]]) js) (pstate w) = (evs, s')
      /\ for_each js (fill_cell predict xx yy i) g w = (r, mk_world s' (log w ++ evs))
      /\ ((exists g',
             r = inr g' /\ grid_dims N g'
             /\ evs = map (fun j => EvPredict [[xi; nth j yy 0%Q]] (inr (at2 g' j i))) js
             /\ forall j' i', i' <> i \/ ~ In j' js -> at2 g' j' i' = at2 g j' i')
          \/ (exists e calls arg,
                r = inl e /\ evs = calls ++ [EvPredict arg (inl e)]
                /\ forallb is_return calls = true
                /\ length calls < length js)).
Proof.
  intros Hx Hy Hi. induction js as [|j js IH]; intros g w Hnd Hlt Hg.
  - exists (inr g), [], (pstate w). simpl. unfold ret.
    rewrite app_nil_r, world_eta. split; [reflexivity|]. split; [reflexivity|].
    left. exists g. auto.
  - inversion Hnd as [|? ? Hnin Hnd']; subst.
    inversion Hlt as [|? ? Hj Hlt']; subst.
    destruct (lookup_lt_is_Some_2 yy j Hj) as [yj Hyj].
    destruct Hg as [Hlen Hrows].
    destruct (lookup_lt_is_Some_2 g j) as [row Hrow]; [lia|].
    assert (Hrl : length row = length yy).
    { rewrite Forall_lookup in Hrows. exact (Hrows _ _ Hrow). }
    cbn [map call_seq]. rewrite (nth_lookup_Some yy j 0%Q yj Hyj).
    destruct (predict [[xi; yj]] (pstate w)) as [[e|v] s1] eqn:Hp.
    { exists (inl e), [EvPredict [[xi; yj]] (inl e)], s1.
      split; [reflexivity|].
      split; [cbn [for_each]; unfold bind;
              now rewrite (fill_cell_raise xx yy i j xi yj e s1 g w Hx Hyj Hp)|].
      right. exists e, [], [[xi; yj]]. repeat split. simpl. lia. }
    pose proof (fill_cell_return xx yy i j xi yj row v s1 g w Hx Hyj Hrow
                  ltac:(lia) Hp) as Hstep.
    destruct (IH (<[j := <[i := v]> row]> g)
                (mk_world s1 (log w ++ [EvPredict [[xi; yj]] (inr v)]))
                Hnd' Hlt' (grid_dims_insert _ _ _ _ _ _ (conj Hlen Hrows) Hrow))
      as (r & evs & s' & Hseq & Hrun & Hcases).
    cbn [pstate log] in Hseq, Hrun. rewrite Hseq.
    exists r, (EvPredict [[xi; yj]] (inr v) :: evs), s'.
    split; [reflexivity|].
    split.
    { cbn [for_each]. unfold bind. rewrite Hstep, Hrun.
      now rewrite <- app_assoc. }
    destruct Hcases as [(g' & -> & Hdims & Hevs & Hkeep)
                       |(e & calls & arg & -> & Hevs & Hret & Hshort)].
    + left. exists g'. split; [reflexivity|]. split; [exact Hdims|]. split.
      * cbn [map]. rewrite ?(nth_lookup_Some yy j 0%Q yj Hyj), Hevs.
        rewrite (Hkeep j i (or_intror Hnin)).
        rewrite at2_insert_eq by (auto; lia). reflexivity.
      * intros j' i' Hcond. rewrite Hkeep.
        -- apply at2_insert_ne; [assumption|].
           destruct Hcond as [Hi'|Hj']; [auto|]. left. intros ->. apply Hj'. now left.
        -- destruct Hcond as [Hi'|Hj']; [auto|]. right. intros Hin. apply Hj'. now right.
    + right. exists e, (EvPredict [[xi; yj]] (inr v) :: calls), arg.
      split; [reflexivity|]. split; [now rewrite Hevs|].
      split; [exact Hret|]. simpl. lia.
Qed.

(** Outer loop, likewise, over the columns [cols]. *)
Lemma fill_columns_outcome (xx yy : list Q) (n : Z) (cols : list nat) :
  length xx = Z.to_nat n -> length yy = Z.to_nat n ->
  forall (g : list (list Q)) (w : world),
    List.NoDup cols -> Forall (fun i => i < Z.to_nat n) cols ->
    grid_dims (Z.to_nat n) g ->
    exists r evs s',
      call_seq predict
        (flat_map (fun i => map (fun j => [[nth i xx 0%Q; nth j yy 0%Q]]) (range n)) cols)
        (pstate w) = (evs, s')
      /\ for_each cols (fill_column predict xx yy n) g w = (r, mk_world s' (log w ++ evs))
      /\ ((exists g',
             r = inr g' /\ grid_dims (Z.to_nat n) g'
             /\ evs = flat_map (fun i =>
                        map (fun j => EvPredict [[nth i xx 0%Q; nth j yy 0%Q]]
                                                (inr (at2 g' j i))) (range n)) cols
             /\ forall j' i', ~ In i' cols -> at2 g' j' i' = at2 g j' i')
          \/ (exists e calls arg,
                r = inl e /\ evs = calls ++ [EvPredict arg (inl e)]
                /\ forallb is_return calls = true
                /\ length calls < length cols * Z.to_nat n)).
Proof.
  intros Hxx Hyy. induction cols as [|i cols IH]; intros g w Hnd Hlt Hg.
  - exists (inr g), [], (pstate w). simpl. unfold ret.
    rewrite app_nil_r, world_eta. split; [reflexivity|]. split; [reflexivity|].
    left. exists g. auto.
  - inversion Hnd as [|? ? Hnin Hnd']; subst.
    inversion Hlt as [|? ? Hi Hlt']; subst.
    destruct (lookup_lt_is_Some_2 xx i) as [xi Hxi]; [lia|].
    assert (Hrange : length (range n) = Z.to_nat n) by (unfold range; apply length_seq).
    destruct (fill_cells_outcome xx yy i xi (Z.to_nat n) (range n) Hxi Hyy Hi g w)
      as (r1 & evs1 & s1 & Hseq1 & Hrun1 & Hcases1); auto.
    { apply List.seq_NoDup. }
    { apply List.Forall_forall. intros j Hj. apply in_seq in Hj. lia. }
    cbn [flat_map]. rewrite call_seq_app.
    rewrite (nth_lookup_Some xx i 0%Q xi Hxi), Hseq1.
    destruct Hcases1 as [(g1 & -> & Hdims1 & Hevs1 & Hkeep1)
                        |(e & calls & arg & -> & Hevs1 & Hret1 & Hshort1)].
    2: { cbv beta iota. rewrite Hevs1, forallb_is_return_raise.
         exists (inl e), (calls ++ [EvPredict arg (inl e)]), s1.
         split; [reflexivity|].
         split; [cbn [for_each]; unfold bind; unfold fill_column at 1;
                 now rewrite Hrun1, Hevs1|].
         right. exists e, calls, arg. repeat split; auto. simpl. lia. }
    assert (Hall1 : forallb is_return evs1 = true)
      by (rewrite Hevs1; apply forallb_is_return_map).
    cbv beta iota. rewrite Hall1.
    destruct (IH g1 (mk_world s1 (log w ++ evs1)) Hnd' Hlt' Hdims1)
      as (r & evs & s' & Hseq & Hrun & Hcases).
    cbn [pstate log] in Hseq, Hrun. rewrite Hseq.
    exists r, (evs1 ++ evs), s'.
    split; [reflexivity|].
    split.
    { cbn [for_each]. unfold bind. unfold fill_column at 1.
      rewrite Hrun1, Hrun. now rewrite <- app_assoc. }
    destruct Hcases as [(g' & -> & Hdims & Hevs & Hkeep)
                       |(e & calls & arg & -> & Hevs & Hret & Hshort)].
    + left. exists g'. split; [reflexivity|]. split; [exact Hdims|]. split.
      * rewrite Hevs, Hevs1. f_equal. apply map_ext. intros j.
        now rewrite (Hkeep j i Hnin).
      * intros j' i' Hcond. rewrite Hkeep.
        -- apply Hkeep1. left. intros ->. apply Hcond. now left.
        -- intros Hin. apply Hcond. now right.
    + right. exists e, (evs1 ++ calls), arg.
      split; [reflexivity|]. split; [now rewrite Hevs, <- app_assoc|].
      split.
      * rewrite forallb_app, Hret, Hevs1, forallb_is_return_map. reflexivity.
      * rewrite length_app, Hevs1, length_map, Hrange. simpl. lia.
Qed.

End FillGrid.

(** ** The hand-off to matplotlib *)

Lemma contourf_check_square (xx yy : list Q) (g : list (list Q)) (N : nat) :
  grid_dims N g -> length xx = N -> length yy = N ->
  contourf_check xx yy g
  = if 2 <=? N then inr tt else inl (contourf_shape_error N N).
Proof.
  intros Hg Hx Hy. unfold contourf_check.
  rewrite (grid_dims_hd N g Hg), (proj1 Hg), Hx, Hy, Nat.eqb_refl.
  destruct (2 <=? N) eqn:E'.
  - apply Nat.leb_le in E'.
    assert (E : (N <? 2) = false) by (apply Nat.ltb_ge; lia). now rewrite E.
  - apply Nat.leb_gt in E'.
    assert (E : (N <? 2) = true) by (apply Nat.ltb_lt; lia). now rewrite E.
Qed.

Lemma render_run {St : Type} (X Y : ndarray) (title : string)
    (xx yy : list Q) (g : list (list Q)) (N : nat) (w : @world St) :
  grid_dims N g -> length xx = N -> length yy = N ->
  render X Y title (xx, yy, g) w
  = if 2 <=? N
    then (inr tt, mk_world (pstate w) (log w ++ render_calls X Y title xx yy g))
    else (inl (contourf_shape_error N N),
          mk_world (pstate w) (log w ++ [EvContourf xx yy g])).
Proof.
  intros Hg Hx Hy. unfold render, contourf, bind, emit, lift.
  rewrite (contourf_check_square xx yy g N Hg Hx Hy).
  destruct (2 <=? N); [|reflexivity].
  cbn [pstate log]. unfold render_calls. now rewrite <- !app_assoc.
Qed.

(** ** The whole call *)

Section PlotOutcome.

Variable A : arith.
Context {St : Type}.
Variable predict : list (list Q) -> St -> (exn + Q) * St.

(** A validation failure ends the call at once. *)
Lemma plot_validation_failure (X Y : ndarray) (title : string) (n : Z)
    (w : world) (e : exn) :
  validate X Y = inl e ->
  plot_decision_boundary A predict X Y title n w = (inl e, w).
Proof. intros Hv. unfold plot_decision_boundary, bind, lift. now rewrite Hv. Qed.

Lemma plot_no_rows (X Y : ndarray) (title : string) (n : Z) (w : world) :
  validate X Y = inr tt -> nth 0 (shape X) 0 = 0 ->
  plot_decision_boundary A predict X Y title n w = (inl min_error, w).
Proof.
  intros Hv Hr. unfold plot_decision_boundary, bind, lift. rewrite Hv.
  unfold compute_grid, bind, lift, axes. now rewrite (bounds_no_rows A X Hr).
Qed.

Lemma plot_negative_resolution (X Y : ndarray) (title : string) (n : Z) (w : world) :
  validate X Y = inr tt -> nth 0 (shape X) 0 <> 0 -> (n < 0)%Z ->
  plot_decision_boundary A predict X Y title n w = (inl (linspace_error n), w).
Proof.
  intros Hv Hr Hn.
  destruct (bounds_spec A X Hr) as (lo0 & hi0 & lo1 & hi1 & Hb & _).
  unfold plot_decision_boundary, bind, lift. rewrite Hv.
  unfold compute_grid, bind, lift, axes. rewrite Hb.
  now rewrite np_linspace_negative.
Qed.

(** On a validated matrix with at least one row and a non-negative grid
    resolution the loop runs: what the call logs first, and the predictor
    state it leaves, are those of calling [predict] on the records of the
    grid in loop order.  Either every call returns, the grid holds the
    results and the call goes on to render it, or the call ends with the
    first [predict] call that raises. *)
Lemma plot_outcome (X Y : ndarray) (title : string) (n : Z) (w : world) :
  validate X Y = inr tt -> nth 0 (shape X) 0 <> 0 -> (0 <= n)%Z ->
  exists xx yy evs s',
    axes A X n = inr (xx, yy)
    /\ length xx = Z.to_nat n /\ length yy = Z.to_nat n
    /\ call_seq predict (grid_args xx yy n) (pstate w) = (evs, s')
    /\ ((exists g,
           grid_dims (Z.to_nat n) g
           /\ evs = grid_calls xx yy g n
           /\ compute_grid A predict X n w
              = (inr (xx, yy, g), mk_world s' (log w ++ evs))
           /\ plot_decision_boundary A predict X Y title n w
              = render X Y title (xx, yy, g) (mk_world s' (log w ++ evs)))
        \/ (exists e calls arg,
              evs = calls ++ [EvPredict arg (inl e)]
              /\ forallb is_return calls = true
              /\ length calls < Z.to_nat n * Z.to_nat n
              /\ compute_grid A predict X n w = (inl e, mk_world s' (log w ++ evs))
              /\ plot_decision_boundary A predict X Y title n w
                 = (inl e, mk_world s' (log w ++ evs)))).
Proof.
  intros Hv Hr Hn.
  destruct (axes_length A X n Hr Hn) as (xx & yy & Hax & Lxx & Lyy).
  destruct (np_zeros_dims n Hn) as (Hz & Hzd).
  assert (Hrange : length (range n) = Z.to_nat n) by (unfold range; apply length_seq).
  destruct (fill_columns_outcome predict xx yy n (range n) Lxx Lyy _ w
              (List.seq_NoDup _ _)
              ltac:(apply List.Forall_forall; intros j Hj; apply in_seq in Hj; lia)
              Hzd)
    as (r & evs & s' & Hseq & Hrun & Hcases).
  exists xx, yy, evs, s'. repeat (split; [assumption|]).
  assert (Hcg : compute_grid A predict X n w
                = match r with
                  | inl e => (inl e, mk_world s' (log w ++ evs))
                  | inr g => (inr (xx, yy, g), mk_world s' (log w ++ evs))
                  end).
  { unfold compute_grid, bind, lift. rewrite Hax, Hz.
    unfold fill_grid. rewrite Hrun. now destruct r. }
  assert (Hplot : plot_decision_boundary A predict X Y title n w
                  = match r with
                    | inl e => (inl e, mk_world s' (log w ++ evs))
                    | inr g => render X Y title (xx, yy, g) (mk_world s' (log w ++ evs))
                    end).
  { unfold plot_decision_boundary. unfold bind at 1. unfold lift at 1. rewrite Hv.
    unfold bind at 1. rewrite Hcg. now destruct r. }
  destruct Hcases as [(g & -> & Hdims & Hevs & _)
                     |(e & calls & arg & -> & Hevs & Hret & Hshort)].
  - left. exists g. auto.
  - right. exists e, calls, arg. rewrite Hrange in Hshort. auto.
Qed.

End PlotOutcome.

(** ** Facts about the expected calls *)

Lemma length_grid_calls (xx yy : list Q) (g : list (list Q)) (n : Z) :
  length (grid_calls xx yy g n) = Z.to_nat n * Z.to_nat n.
Proof.
  unfold grid_calls, range.
  assert (H : forall (l : list nat) (m : nat) (f : nat -> nat -> event),
             length (flat_map (fun i => map (f i) (seq 0 m)) l) = length l * m).
  { induction l as [|a l IH]; intros m f; simpl; [reflexivity|].
    now rewrite length_app, length_map, length_seq, IH. }
  now rewrite H, length_seq.
Qed.

Lemma returns_not_render (calls : list event) :
  forallb is_return calls = true -> List.filter is_render calls = [].
Proof.
  induction calls as [|ev calls IH]; simpl; [reflexivity|].
  intros H. apply andb_true_iff in H as [Hev H].
  destruct ev as [a [e|v]| | | |]; try discriminate Hev. simpl. auto.
Qed.

Lemma grid_calls_predict (xx yy : list Q) (g : list (list Q)) (n : Z) :
  List.filter is_render (grid_calls xx yy g n) = [].
Proof. apply returns_not_render, forallb_is_return_grid_calls. Qed.

Lemma grid_call_in (xx yy : list Q) (g : list (list Q)) (n : Z) (i j : nat) :
  i < Z.to_nat n -> j < Z.to_nat n ->
  In (EvPredict [[nth i xx 0%Q; nth j yy 0%Q]] (inr (at2 g j i))) (grid_calls xx yy g n).
Proof.
  intros Hi Hj. unfold grid_calls, range. apply in_flat_map. exists i. split.
  - apply in_seq. lia.
  - apply (in_map (fun j => EvPredict [[nth i xx 0%Q; nth j yy 0%Q]] (inr (at2 g j i)))).
    apply in_seq. lia.
Qed.

(** ** [np.linspace] in exact arithmetic, with at least two samples *)

Section Linspace.

Variables (start stop : Q) (num : Z).
Hypothesis Hnum : (2 <= num)%Z.
Hypothesis Hlt : (start < stop)%Q.

Local Abbreviation step := (linspace_step start stop num).
Local Abbreviation sample := (linspace_sample start stop num).

Lemma step_pos : (0 < step)%Q.
Proof.
  unfold linspace_step. apply Qlt_shift_div_l.
  - change 0%Q with (inject_Z 0). rewrite <- Zlt_Qlt. lia.
  - lra.
Qed.

Lemma linspace_unfold :
  np_linspace exact start stop num
  = inr (<[Z.to_nat num - 1 := stop]> (map sample (seq 0 (Z.to_nat num)))).
Proof.
  unfold np_linspace. cbn [to_float fsub fdiv fmul fadd exact].
  destruct (num <? 0)%Z eqn:E0; [apply Z.ltb_lt in E0; lia|].
  destruct (0 <? num - 1)%Z eqn:E1; [|apply Z.ltb_ge in E1; lia].
  destruct (1 <? num)%Z eqn:E2; [|apply Z.ltb_ge in E2; lia].
  destruct (Qeq_bool ((stop - start) / inject_Z (num - 1)) 0) eqn:E3.
  { apply Qeq_bool_iff in E3. pose proof step_pos as Hs.
    unfold linspace_step in Hs. rewrite E3 in Hs. now apply Qlt_irrefl in Hs. }
  unfold range. rewrite !map_map, length_map, length_seq. reflexivity.
Qed.

Lemma step_total : (inject_Z (num - 1) * step == stop - start)%Q.
Proof.
  unfold linspace_step. field. intros H.
  unfold Qeq in H. simpl in H. lia.
Qed.

Lemma sample_mono (i j : nat) : i < j -> (sample i < sample j)%Q.
Proof.
  intros Hij. unfold linspace_sample. apply Qplus_lt_l, Qmult_lt_r; [apply step_pos|].
  rewrite <- Zlt_Qlt. lia.
Qed.

Lemma sample_below_stop (i : nat) : i < Z.to_nat num - 1 -> (sample i < stop)%Q.
Proof.
  intros Hi. pose proof step_total as Ht.
  assert (Hm : (inject_Z (Z.of_nat i) * step < inject_Z (num - 1) * step)%Q).
  { apply Qmult_lt_r; [apply step_pos|]. rewrite <- Zlt_Qlt. lia. }
  unfold linspace_sample. lra.
Qed.

Lemma linspace_lookup (xx : list Q) (i : nat) (a : Q) :
  np_linspace exact start stop num = inr xx -> xx !! i = Some a ->
  (i = Z.to_nat num - 1 /\ a = stop) \/ (i < Z.to_nat num - 1 /\ a = sample i).
Proof.
  rewrite linspace_unfold. intros [= <-] Hi.
  pose proof (lookup_lt_Some _ _ _ Hi) as Hlen.
  rewrite length_insert, length_map, length_seq in Hlen.
  destruct (decide (i = Z.to_nat num - 1)) as [->|Hne].
  - left. split; [reflexivity|].
    rewrite list_lookup_insert_eq in Hi by (rewrite length_map, length_seq; lia).
    congruence.
  - right. split; [lia|].
    rewrite list_lookup_insert_ne in Hi by congruence.
    rewrite list_lookup_fmap, lookup_seq_lt in Hi by lia.
    simpl in Hi. congruence.
Qed.

Lemma linspace_spec :
  exists xx, np_linspace exact start stop num = inr xx
             /\ length xx = Z.to_nat num
             /\ strictly_increasing xx
             /\ spans xx start stop.
Proof.
  pose proof linspace_unfold as Hu.
  eexists. split; [exact Hu|]. split; [|split].
  - now rewrite length_insert, length_map, length_seq.
  - intros i j a b Hij Ha Hb.
    pose proof (lookup_lt_Some _ _ _ Hb) as Hlen.
    rewrite length_insert, length_map, length_seq in Hlen.
    destruct (linspace_lookup _ _ _ Hu Ha) as [[Hi _]|[Hi ->]]; [lia|].
    destruct (linspace_lookup _ _ _ Hu Hb) as [[Hj ->]|[Hj ->]].
    + now apply sample_below_stop.
    + now apply sample_mono.
  - exists (sample 0), stop. split; [|split; [|split]].
    + rewrite head_lookup, list_lookup_insert_ne by lia.
      rewrite list_lookup_fmap, lookup_seq_lt by lia. reflexivity.
    + rewrite last_lookup, length_insert, length_map, length_seq.
      replace (Init.Nat.pred (Z.to_nat num)) with (Z.to_nat num - 1) by lia.
      apply list_lookup_insert_eq. rewrite length_map, length_seq. lia.
    + unfold linspace_sample. change (inject_Z (Z.of_nat 0)) with 0%Q. ring.
    + reflexivity.
Qed.

End Linspace.

Lemma min_le_max (mn mx : Q) (l : list Q) : is_min mn l -> is_max mx l -> (mn <= mx)%Q.
Proof. intros [_ Hmin] [Hin _]. now apply Hmin. Qed.

(** In exact arithmetic both coordinate sequences of a non-empty matrix
    sampled at two or more points meet the specification. *)
Lemma axes_spec (X : ndarray) (n : Z) :
  nth 0 (shape X) 0 <> 0 -> (2 <= n)%Z -> axes_ok exact X n.
Proof.
  intros Hr Hn. unfold axes_ok, axes.
  destruct (bounds_spec exact X Hr)
    as (lo0 & hi0 & lo1 & hi1 & -> & Hlo0 & Hhi0 & Hlo1 & Hhi1).
  cbn [sub_one add_one exact].
  pose proof (min_le_max _ _ _ Hlo0 Hhi0) as H0.
  pose proof (min_le_max _ _ _ Hlo1 Hhi1) as H1.
  destruct (linspace_spec (lo0 - 1) (hi0 + 1) n Hn ltac:(lra)) as (xx & -> & Lxx & Sxx & Pxx).
  destruct (linspace_spec (lo1 - 1) (hi1 + 1) n Hn ltac:(lra)) as (yy & -> & Lyy & Syy & Pyy).
  exists xx, yy. split; [reflexivity|]. split.
  - split; [exact Lxx|]. split; [exact Sxx|]. now exists lo0, hi0.
  - split; [exact Lyy|]. split; [exact Syy|]. now exists lo1, hi1.
Qed.

(** Under any arithmetic with the zero laws, each sequence runs from the
    lower to the upper bound the program computed. *)
Lemma axes_ends (A : arith) (X : ndarray) (n : Z) :
  zero_laws A -> nth 0 (shape X) 0 <> 0 -> (2 <= n)%Z ->
  exists xx yy, axes A X n = inr (xx, yy)
                /\ axis_ends A xx n (column X 0) /\ axis_ends A yy n (column X 1).
Proof.
  intros Hz Hr Hn.
  destruct (axes_length A X n Hr ltac:(lia)) as (xx & yy & Hax & Lxx & Lyy).
  exists xx, yy. split; [exact Hax|].
  unfold axes in Hax.
  destruct (bounds_spec A X Hr)
    as (lo0 & hi0 & lo1 & hi1 & Hb & Hlo0 & Hhi0 & Hlo1 & Hhi1).
  rewrite Hb in Hax.
  destruct (np_linspace A (sub_one A lo0) (add_one A hi0) n) as [?|xx'] eqn:Hx;
    [discriminate|].
  destruct (np_linspace A (sub_one A lo1) (add_one A hi1) n) as [?|yy'] eqn:Hy;
    [discriminate|].
  injection Hax as -> ->.
  destruct (np_linspace_head A _ _ n xx Hz Hn Hx) as (xa & Hxa & Exa).
  destruct (np_linspace_head A _ _ n yy Hz Hn Hy) as (ya & Hya & Eya).
  split.
  - split; [exact Lxx|]. exists lo0, hi0, xa, (to_float A (add_one A hi0)).
    repeat (split; [assumption|]). split; [|split; [exact Exa|reflexivity]].
    exact (np_linspace_last A _ _ n xx Hn Hx).
  - split; [exact Lyy|]. exists lo1, hi1, ya, (to_float A (add_one A hi1)).
    repeat (split; [assumption|]). split; [|split; [exact Eya|reflexivity]].
    exact (np_linspace_last A _ _ n yy Hn Hy).
Qed.

Lemma zero_laws_exact : zero_laws exact.
Proof.
  split; [|split].
  - intros x _. change (0 / x == 0)%Q. unfold Qdiv. ring.
  - intros z x Hz. change (z + x == x)%Q. rewrite Hz. ring.
  - intros z x Hz. change (z * x == 0)%Q. rewrite Hz. ring.
Qed.

(** ** Repeated calls with a deterministic predictor *)

Section Stable.

Variable A : arith.
Context {St : Type}.
Variable predict : list (list Q) -> St -> (exn + Q) * St.
Hypothesis predict_det : deterministic predict.

Lemma stable_lift {T : Type} (r : exn + T) : stable (@lift St T r).
Proof.
  intros w1 w2. split; [reflexivity|]. exists [], []. simpl.
  now rewrite !app_nil_r.
Qed.

Lemma stable_ret {T : Type} (a : T) : stable (@ret St T a).
Proof. exact (stable_lift (inr a)). Qed.

Lemma stable_emit (e : event) : stable (@emit St e).
Proof. intros w1 w2. split; [reflexivity|]. now exists [e], [e]. Qed.

Lemma stable_call_predict (arg : list (list Q)) : stable (call_predict predict arg).
Proof.
  intros w1 w2. unfold call_predict.
  pose proof (predict_det arg (pstate w1) (pstate w2)) as Hd.
  destruct (predict arg (pstate w1)) as [r1 s1], (predict arg (pstate w2)) as [r2 s2].
  simpl in *. split; [exact Hd|].
  now exists [EvPredict arg r1], [EvPredict arg r2].
Qed.

Lemma stable_bind {T U : Type} (c : M T) (k : T -> @M St U) :
  stable c -> (forall a, stable (k a)) -> stable (bind c k).
Proof.
  intros Hc Hk w1 w2. unfold bind.
  destruct (Hc w1 w2) as (Hfst & n1 & n2 & H1 & H2 & Hf).
  destruct (c w1) as [r1 w1'], (c w2) as [r2 w2']. simpl in *. subst r2.
  destruct r1 as [e|a].
  - simpl. split; [reflexivity|]. now exists n1, n2.
  - destruct (Hk a w1' w2') as (Hfst' & m1 & m2 & H1' & H2' & Hf').
    split; [exact Hfst'|]. exists (n1 ++ m1), (n2 ++ m2).
    rewrite H1', H2', H1, H2, <- !app_assoc, !List.filter_app, Hf, Hf'. auto.
Qed.

Lemma stable_for_each {T V : Type} (body : T -> V -> @M St V) (l : list T) :
  (forall a v, stable (body a v)) -> forall v, stable (for_each l body v).
Proof.
  intros Hbody. induction l as [|a l IH]; intros v; simpl.
  - apply stable_ret.
  - apply stable_bind; auto.
Qed.

Lemma stable_getitem {T : Type} (l : list T) (i : nat) : stable (@getitem St T l i).
Proof. unfold getitem. destruct (l !! i); [apply stable_ret|apply stable_lift]. Qed.

Lemma stable_setitem2 (g : list (list Q)) (j i : nat) (v : Q) :
  stable (@setitem2 St g j i v).
Proof.
  unfold setitem2. destruct (g !! j) as [row|]; [|apply stable_lift].
  destruct (i <? length row); [apply stable_ret|apply stable_lift].
Qed.

Lemma stable_compute_grid (X : ndarray) (n : Z) : stable (compute_grid A predict X n).
Proof.
  unfold compute_grid. apply stable_bind; [apply stable_lift|]. intros [xx yy].
  apply stable_bind; [apply stable_lift|]. intros g0.
  apply stable_bind; [|intros g; apply stable_ret].
  unfold fill_grid. apply stable_for_each. intros i g.
  unfold fill_column. apply stable_for_each. intros j g'.
  unfold fill_cell.
  apply stable_bind; [apply stable_getitem|]. intros xi.
  apply stable_bind; [apply stable_getitem|]. intros yj.
  apply stable_bind; [apply stable_call_predict|]. intros v.
  apply stable_setitem2.
Qed.

Lemma stable_plot (X Y : ndarray) (title : string) (n : Z) :
  stable (plot_decision_boundary A predict X Y title n).
Proof.
  unfold plot_decision_boundary.
  apply stable_bind; [apply stable_lift|]. intros _.
  apply stable_bind; [apply stable_compute_grid|]. intros [[xx yy] g].
  unfold render, contourf.
  apply stable_bind;
    [apply stable_bind; [apply stable_emit|intros _; apply stable_lift]|]. intros _.
  repeat (apply stable_bind; [apply stable_emit|]; intros _).
  apply stable_emit.
Qed.

End Stable.

Lemma grid_arg_form (xx yy : list Q) (n : Z) (arg : list (list Q)) :
  In arg (grid_args xx yy n) -> exists x y, arg = [[x; y]].
Proof.
  unfold grid_args. intros Hin. apply in_flat_map in Hin as (i & _ & Hin).
  apply in_map_iff in Hin as (j & <- & _). eauto.
Qed.

Lemma zero_predict_never_raises (args : list (list (list Q))) (s : unit) :
  no_call_raises zero_predict args s.
Proof.
  unfold no_call_raises. revert s. induction args as [|a args IH]; intros s; simpl.
  - reflexivity.
  - specialize (IH s). destruct (call_seq zero_predict args s). simpl in *. exact IH.
Qed.

(** * The claims *)



(** C2. The four constraints have pairwise distinct errors; an input that
    violates exactly one constraint is rejected with that constraint's
    error; an input that violates any constraint is rejected; every
    rejection is the error of a violated constraint; and an input that
    violates none is accepted. *)
Theorem validation_errors_C2 :
  (forall c c', error_of c = error_of c' -> c = c')
  /\ (forall c, In c all_checks)
  /\ (forall X Y c, violates c X Y -> (forall c', c' <> c -> ~ violates c' X Y) ->
        validate X Y = inl (error_of c))
  /\ (forall X Y c, violates c X Y -> exists e, validate X Y = inl e)
  /\ (forall X Y e, validate X Y = inl e -> exists c, violates c X Y /\ e = error_of c)
  /\ (forall X Y, (forall c, ~ violates c X Y) -> validate X Y = inr tt).
Proof.
  split; [exact error_of_inj|].
  split; [intros []; simpl; auto|].
  split.
  { intros X Y c Hc Hothers. apply validate_first; [assumption|].
    intros c' Hlt. apply Hothers. intros ->. lia. }
  split.
  { intros X Y c Hc. destruct (validate X Y) as [e|[]] eqn:E; [eauto|].
    exfalso. exact (validate_ok_no_violation X Y c E Hc). }
  split.
  { intros X Y e He. apply validate_error_inv in He as (c & Hc & _ & ->). eauto. }
  exact validate_no_violation_ok.
Qed.

Lemma validation_errors_C2_witness :
  validate features3col labels2 = inl (error_of FeaturesShape)
  /\ validate features4 labels4 = inr tt.
Proof.
  destruct validation_errors_C2 as (_ & _ & Hone & _ & _ & Hnone). split.
  - apply Hone.
    + simpl. intros [r Hr]. discriminate Hr.
    + intros [] Hne; try congruence; simpl.
      * intros H. apply H. now exists 2.
      * intros (r & m & Hr & Hm & Hrm). simpl in Hr, Hm. congruence.
      * intros (v & Hv & H0 & H1). simpl in Hv.
        destruct Hv as [<-|[<-|[]]]; [apply H0|apply H1]; reflexivity.
  - apply Hnone. intros []; simpl.
    + intros H. apply H. now exists 4.
    + intros H. apply H. now exists 4.
    + intros (r & m & Hr & Hm & Hrm). simpl in Hr, Hm. congruence.
    + intros (v & Hv & H0 & H1). simpl in Hv.
      destruct Hv as [<-|[<-|[<-|[<-|[]]]]]; (apply H0; reflexivity) || (apply H1; reflexivity).
Defined.


(** Rounding can make samples coincide: in an arithmetic that absorbs the
    padding of 1, as float64 does at 1e16, a single feature point gives two
    equal coordinates at grid resolution 2. *)
Lemma absorbed_padding_collapses_axes :
  validate features1 labels1 = inr tt
  /\ axes absorbing features1 2 = inr ([5; 5]%Q, [0; 0]%Q)
  /\ ~ strictly_increasing [5; 5]%Q.
Proof.
  split; [reflexivity|]. split; [reflexivity|].
  intros H. specialize (H 0 1 5%Q 5%Q ltac:(lia) eq_refl eq_refl).
  now apply Qlt_irrefl in H.
Qed.



(** C4, as stated, fails on the empty input: a 0 by 2 feature matrix with an
    empty label vector passes validation, and the call then raises.  It also
    fails on a non-empty input at grid resolution 1, where [contourf]
    refuses the 1 by 1 grid. *)
Lemma valid_call_C4_counterexample :
  (forall args s, no_call_raises zero_predict args s)
  /\ (validate features0 labels0 = inr tt
      /\ fst (plot_decision_boundary exact zero_predict features0 labels0 default_title
                default_n_cells w0) = inl min_error)
  /\ (validate features4 labels4 = inr tt
      /\ fst (plot_decision_boundary exact zero_predict features4 labels4 default_title
                1 w0) = inl (contourf_shape_error 1 1)).
Proof.
  split; [exact zero_predict_never_raises|]. split.
  - split; reflexivity.
  - split; [reflexivity|vm_compute; reflexivity].
Qed.

(** C4, amended. For a pair that passes validation and has at least one
    feature row, a grid resolution of at least 2 and a predictor none of
    whose calls in this run raises, the call returns normally: it makes the
    [predict] calls of the grid and then the four rendering calls. *)
Theorem valid_call_C4 {St : Type} (A : arith)
    (predict : list (list Q) -> St -> (exn + Q) * St)
    (X Y : ndarray) (title : string) (n : Z) (w : world) :
  validate X Y = inr tt -> nth 0 (shape X) 0 <> 0 -> (2 <= n)%Z ->
  (forall xx yy, axes A X n = inr (xx, yy) ->
                 no_call_raises predict (grid_args xx yy n) (pstate w)) ->
  exists xx yy g w',
    plot_decision_boundary A predict X Y title n w = (inr tt, w')
    /\ axes A X n = inr (xx, yy)
    /\ log w' = log w ++ grid_calls xx yy g n ++ render_calls X Y title xx yy g.
Proof.
  intros Hv Hr Hn Hnr.
  destruct (plot_outcome A predict X Y title n w Hv Hr ltac:(lia))
    as (xx & yy & evs & s' & Hax & Lxx & Lyy & Hseq & Hcases).
  specialize (Hnr xx yy Hax). unfold no_call_raises in Hnr. rewrite Hseq in Hnr.
  destruct Hcases as [(g & Hd & -> & Hcg & Hplot)|(e & calls & arg & -> & _)].
  2: { simpl in Hnr. rewrite forallb_is_return_raise in Hnr. discriminate Hnr. }
  rewrite (render_run X Y title xx yy g (Z.to_nat n) _ Hd Lxx Lyy) in Hplot.
  assert (E : (2 <=? Z.to_nat n) = true) by (apply Nat.leb_le; lia).
  rewrite E in Hplot.
  exists xx, yy, g. eexists. split; [exact Hplot|]. split; [exact Hax|].
  cbn [log]. now rewrite <- app_assoc.
Qed.

Lemma valid_call_C4_witness :
  exists xx yy g w',
    plot_decision_boundary exact threshold_predict features4 labels4 default_title
      default_n_cells w0 = (inr tt, w')
    /\ axes exact features4 default_n_cells = inr (xx, yy)
    /\ log w' = log w0 ++ grid_calls xx yy g default_n_cells
                ++ render_calls features4 labels4 default_title xx yy g.
Proof.
  apply (valid_call_C4 exact threshold_predict features4 labels4 default_title
           default_n_cells w0).
  - reflexivity.
  - simpl. lia.
  - unfold default_n_cells. lia.
  - intros xx yy Hax. vm_compute in Hax. injection Hax as <- <-.
    vm_compute. reflexivity.
Defined.

(** C5. When validation fails, the call ends with that error in the very
    world it started from: the log is unchanged, so [predict] was not
    invoked and nothing was rendered, and the predictor's state is
    untouched. *)
Theorem validation_failure_aborts_C5 {St : Type} (A : arith)
    (predict : list (list Q) -> St -> (exn + Q) * St)
    (X Y : ndarray) (title : string) (n : Z) (w : world) (e : exn) :
  validate X Y = inl e ->
  plot_decision_boundary A predict X Y title n w = (inl e, w)
  /\ log (snd (plot_decision_boundary A predict X Y title n w)) = log w
  /\ pstate (snd (plot_decision_boundary A predict X Y title n w)) = pstate w.
Proof.
  intros Hv. rewrite (plot_validation_failure A predict X Y title n w e Hv). auto.
Qed.

Lemma validation_failure_aborts_C5_witness :
  plot_decision_boundary exact counting_predict features3col labels2 default_title 4
    (mk_world 7 [EvShow])
  = (inl (error_of FeaturesShape), mk_world 7 [EvShow])
  /\ log (snd (plot_decision_boundary exact counting_predict features3col labels2
                 default_title 4 (mk_world 7 [EvShow]))) = [EvShow]
  /\ pstate (snd (plot_decision_boundary exact counting_predict features3col labels2
                    default_title 4 (mk_world 7 [EvShow]))) = 7.
Proof.
  apply (validation_failure_aborts_C5 exact counting_predict features3col labels2
           default_title 4 (mk_world 7 [EvShow]) (error_of FeaturesShape)).
  reflexivity.
Defined.

(** C6. With a deterministic predictor, a second call with the same
    arguments, made in the world the first call left behind, has the same
    outcome, computes the same coordinate sequences and grid, and issues the
    same rendering calls (the contour call carries the grid). *)
Theorem repeated_call_same_grid_C6 {St : Type} (A : arith)
    (predict : list (list Q) -> St -> (exn + Q) * St)
    (X Y : ndarray) (title : string) (n : Z) (w : world) :
  deterministic predict ->
  let first := plot_decision_boundary A predict X Y title n w in
  let second := plot_decision_boundary A predict X Y title n (snd first) in
  fst first = fst second
  /\ fst (compute_grid A predict X n w) = fst (compute_grid A predict X n (snd first))
  /\ exists new1 new2,
       log (snd first) = log w ++ new1
       /\ log (snd second) = log (snd first) ++ new2
       /\ List.filter is_render new1 = List.filter is_render new2.
Proof.
  intros Hdet first second.
  destruct (stable_plot A predict Hdet X Y title n w (snd first)) as (Hfst & Hlogs).
  split; [exact Hfst|]. split; [|exact Hlogs].
  apply (stable_compute_grid A predict Hdet X n w (snd first)).
Qed.

Lemma repeated_call_same_grid_C6_witness :
  let first := plot_decision_boundary exact counting_predict features4 labels4
                 default_title 4 (mk_world 0 []) in
  let second := plot_decision_boundary exact counting_predict features4 labels4
                  default_title 4 (snd first) in
  fst first = fst second
  /\ fst (compute_grid exact counting_predict features4 4 (mk_world 0 []))
     = fst (compute_grid exact counting_predict features4 4 (snd first))
  /\ exists new1 new2,
       log (snd first) = log (mk_world 0 []) ++ new1
       /\ log (snd second) = log (snd first) ++ new2
       /\ List.filter is_render new1 = List.filter is_render new2.
Proof.
  apply (repeated_call_same_grid_C6 exact counting_predict features4 labels4
           default_title 4 (mk_world 0 [])).
  intros a s1 s2. reflexivity.
Defined.

(** C7. The scenario of the specification: four diagonal points, labels
    [0; 0; 1; 1], the threshold predictor and grid resolution 4, evaluated
    in exact arithmetic.  The bounds are -1 and 4 on both axes, [predict] is
    called 16 times, and every row of the grid holds 0 in the columns whose
    x-coordinate is at most 3/2 and 1 in the others. *)
Theorem scenario_C7 :
  bounds exact features4 = inr ((- (1), 4), (- (1), 4))%Q
  /\ exists xx yy g w',
       axes exact features4 4 = inr (xx, yy)
       /\ plot_decision_boundary exact threshold_predict features4 labels4
            default_title 4 w0 = (inr tt, w')
       /\ log w' = grid_calls xx yy g 4
                   ++ render_calls features4 labels4 default_title xx yy g
       /\ length (List.filter is_predict (log w')) = 16
       /\ g = map (fun j => map (fun i => if Qle_bool (nth i xx 0%Q) (3 # 2)
                                          then 0%Q else 1%Q) (seq 0 4)) (seq 0 4)
       /\ g = [[0; 0; 1; 1]; [0; 0; 1; 1]; [0; 0; 1; 1]; [0; 0; 1; 1]]%Q.
Proof.
  split; [reflexivity|].
  exists [-3 # 3; 2 # 3; 7 # 3; 4 # 1]%Q, [-3 # 3; 2 # 3; 7 # 3; 4 # 1]%Q,
         [[0; 0; 1; 1]; [0; 0; 1; 1]; [0; 0; 1; 1]; [0; 0; 1; 1]]%Q.
  eexists. split; [reflexivity|]. split; [vm_compute; reflexivity|].
  split; [reflexivity|]. split; [reflexivity|]. split; reflexivity.
Qed.

(** C8. The 0 by 2 feature matrix with the empty label vector is a
    well-formed input that passes validation; the call then fails in the
    bounds computation, where the minimum of an empty column is undefined,
    before any [predict] or rendering call. *)
Theorem empty_input_C8 :
  wf_ndarray features0 /\ wf_ndarray labels0
  /\ validate features0 labels0 = inr tt
  /\ column features0 0 = []
  /\ np_min (column features0 0) = inl min_error
  /\ (forall A : arith, bounds A features0 = inl min_error)
  /\ forall (A : arith) (St : Type) (predict : list (list Q) -> St -> (exn + Q) * St)
            (title : string) (n : Z) (w : world),
       plot_decision_boundary A predict features0 labels0 title n w = (inl min_error, w).
Proof. repeat (split; [reflexivity|]). reflexivity. Qed.

(** C9. The checks are evaluated in the order features shape, labels rank,
    row count, label domain: whenever a check is violated and none of the
    checks before it is, the one error raised is that check's, whatever the
    later checks would say; and the call ends there. *)
Theorem validation_precedence_C9 (X Y : ndarray) (c : check) :
  violates c X Y ->
  (forall c', check_rank c' < check_rank c -> ~ violates c' X Y) ->
  validate X Y = inl (error_of c)
  /\ forall (A : arith) (St : Type) (predict : list (list Q) -> St -> (exn + Q) * St)
            (title : string) (n : Z) (w : world),
       plot_decision_boundary A predict X Y title n w = (inl (error_of c), w).
Proof.
  intros Hc Hbefore. pose proof (validate_first X Y c Hc Hbefore) as Hv.
  split; [exact Hv|]. intros A St predict title n w.
  now apply plot_validation_failure.
Qed.

Lemma validation_precedence_C9_witness :
  violates LabelsRank features4 labels_bad
  /\ violates RowCount features4 labels_bad
  /\ violates LabelDomain features4 labels_bad
  /\ validate features4 labels_bad = inl (error_of LabelsRank).
Proof.
  split; [simpl; intros [m Hm]; discriminate Hm|].
  split; [exists 4, 3; simpl; repeat split; lia|].
  split; [exists 2%Q; simpl; repeat split; auto; intros H; discriminate H|].
  apply (validation_precedence_C9 features4 labels_bad LabelsRank).
  - simpl. intros [m Hm]. discriminate Hm.
  - intros [] Hlt; simpl in Hlt; try lia. simpl.
    intros H. apply H. now exists 4.
Defined.

Lemma linspace_error_not_validation (n : Z) (c : check) :
  linspace_error n <> error_of c.
Proof. destruct c; intros H; discriminate H. Qed.

Lemma contourf_error_not_validation (rows cols : nat) (c : check) :
  contourf_shape_error rows cols <> error_of c.
Proof. destruct c; intros H; discriminate H. Qed.

(** C10. The grid resolution is looked at by none of the four checks.  On an
    input that passes them and has a feature row: with grid resolution 0
    the coordinate sequences and the grid are empty and [predict] is not
    invoked (the empty grid is then refused by [contourf], not by a
    validation check); a negative grid resolution gets past validation and
    is refused by [np.linspace]; and for every grid resolution, whatever
    error the call ends in, when no [predict] call raises, is none of the
    four validation errors. *)
Theorem grid_resolution_unchecked_C10 {St : Type} (A : arith)
    (predict : list (list Q) -> St -> (exn + Q) * St)
    (X Y : ndarray) (title : string) (w : world) :
  validate X Y = inr tt -> nth 0 (shape X) 0 <> 0 ->
  (axes A X 0 = inr ([], [])
   /\ compute_grid A predict X 0 w = (inr ([], [], []), w)
   /\ plot_decision_boundary A predict X Y title 0 w
      = (inl (contourf_shape_error 0 0),
         mk_world (pstate w) (log w ++ [EvContourf [] [] []])))
  /\ (forall n, (n < 0)%Z ->
        plot_decision_boundary A predict X Y title n w = (inl (linspace_error n), w))
  /\ (forall n e w',
        plot_decision_boundary A predict X Y title n w = (inl e, w') ->
        (forall xx yy, axes A X n = inr (xx, yy) ->
                       no_call_raises predict (grid_args xx yy n) (pstate w)) ->
        forall c, e <> error_of c).
Proof.
  intros Hv Hr. split; [|split].
  - destruct (bounds_spec A X Hr) as (lo0 & hi0 & lo1 & hi1 & Hb & _).
    assert (Hax : axes A X 0 = inr ([], [])) by (unfold axes; now rewrite Hb).
    assert (Hc : compute_grid A predict X 0 w = (inr ([], [], []), w)).
    { unfold compute_grid, bind, lift. now rewrite Hax. }
    split; [exact Hax|]. split; [exact Hc|].
    unfold plot_decision_boundary, bind, lift. rewrite Hv, Hc. reflexivity.
  - intros n Hn. now apply plot_negative_resolution.
  - intros n e w' Hrun Hnr c.
    destruct (Z_lt_le_dec n 0) as [Hn|Hn].
    { rewrite (plot_negative_resolution A predict X Y title n w Hv Hr Hn) in Hrun.
      injection Hrun as <- _. apply linspace_error_not_validation. }
    destruct (plot_outcome A predict X Y title n w Hv Hr Hn)
      as (xx & yy & evs & s' & Hax & Lxx & Lyy & Hseq & Hcases).
    specialize (Hnr xx yy Hax). unfold no_call_raises in Hnr. rewrite Hseq in Hnr.
    destruct Hcases as [(g & Hd & -> & Hcg & Hplot)|(e1 & calls & arg & -> & _)].
    2: { simpl in Hnr. rewrite forallb_is_return_raise in Hnr. discriminate Hnr. }
    rewrite (render_run X Y title xx yy g (Z.to_nat n) _ Hd Lxx Lyy) in Hplot.
    rewrite Hplot in Hrun. destruct (2 <=? Z.to_nat n); [discriminate Hrun|].
    injection Hrun as <- _. apply contourf_error_not_validation.
Qed.

Lemma grid_resolution_unchecked_C10_witness :
  axes exact features4 0 = inr ([], [])
  /\ compute_grid exact threshold_predict features4 0 w0 = (inr ([], [], []), w0)
  /\ plot_decision_boundary exact threshold_predict features4 labels4 default_title 0 w0
     = (inl (contourf_shape_error 0 0),
        mk_world (pstate w0) (log w0 ++ [EvContourf [] [] []])).
Proof.
  apply (proj1 (grid_resolution_unchecked_C10 exact threshold_predict features4
                  labels4 default_title w0 eq_refl ltac:(simpl; lia))).
Defined.

(** * Further properties of [plot_decision_boundary] *)

(** With a single sample the sequence holds the lower end only, under the
    zero laws. *)
Lemma np_linspace_one (A : arith) (start stop : Q) (xx : list Q) :
  zero_laws A -> np_linspace A start stop 1 = inr xx ->
  exists a, xx = [a] /\ (a == to_float A start)%Q.
Proof.
  intros (_ & Hadd & Hmul) Hxx.
  assert (H1 : np_linspace A start stop 1
               = inr [fadd A (fmul A (inject_Z (Z.of_nat 0))
                                     (fsub A (to_float A stop) (to_float A start)))
                             (to_float A start)])
    by reflexivity.
  rewrite H1 in Hxx. injection Hxx as <-. eexists. split; [reflexivity|].
  apply Hadd, Hmul. reflexivity.
Qed.

(** X1. A call that ends in an error never reaches [scatter], [title] or
    [show].  What it logged is [predict] calls only, or, when the error is
    [contourf]'s refusal of a grid smaller than 2 by 2, the [predict] calls
    of the complete grid followed by that one [contourf] call. *)
Theorem failure_stops_rendering_X1 {St : Type} (A : arith)
    (predict : list (list Q) -> St -> (exn + Q) * St)
    (X Y : ndarray) (title : string) (n : Z) (w w' : world) (e : exn) :
  plot_decision_boundary A predict X Y title n w = (inl e, w') ->
  exists calls,
    List.filter is_render calls = []
    /\ (log w' = log w ++ calls
        \/ exists xx yy g,
             log w' = log w ++ calls ++ [EvContourf xx yy g]
             /\ calls = grid_calls xx yy g n
             /\ grid_dims (Z.to_nat n) g
             /\ (0 <= n < 2)%Z
             /\ e = contourf_shape_error (Z.to_nat n) (Z.to_nat n)).
Proof.
  intros Hrun.
  assert (Hsame : forall e0, plot_decision_boundary A predict X Y title n w = (inl e0, w) ->
            exists calls,
              List.filter is_render calls = []
              /\ (log w' = log w ++ calls
                  \/ exists xx yy g,
                       log w' = log w ++ calls ++ [EvContourf xx yy g]
                       /\ calls = grid_calls xx yy g n
                       /\ grid_dims (Z.to_nat n) g
                       /\ (0 <= n < 2)%Z
                       /\ e = contourf_shape_error (Z.to_nat n) (Z.to_nat n))).
  { intros e0 H0. rewrite H0 in Hrun. injection Hrun as _ <-.
    exists []. split; [reflexivity|]. left. now rewrite app_nil_r. }
  destruct (validate X Y) as [e0|[]] eqn:Hv.
  { exact (Hsame _ (plot_validation_failure A predict X Y title n w e0 Hv)). }
  destruct (Nat.eq_dec (nth 0 (shape X) 0) 0) as [Hr|Hr].
  { exact (Hsame _ (plot_no_rows A predict X Y title n w Hv Hr)). }
  destruct (Z_lt_le_dec n 0) as [Hn|Hn].
  { exact (Hsame _ (plot_negative_resolution A predict X Y title n w Hv Hr Hn)). }
  destruct (plot_outcome A predict X Y title n w Hv Hr Hn)
    as (xx & yy & evs & s' & Hax & Lxx & Lyy & Hseq & Hcases).
  destruct Hcases as [(g & Hd & -> & Hcg & Hplot)
                     |(e1 & calls & arg & -> & Hret & _ & _ & Hplot)].
  - rewrite (render_run X Y title xx yy g (Z.to_nat n) _ Hd Lxx Lyy) in Hplot.
    rewrite Hplot in Hrun. destruct (2 <=? Z.to_nat n) eqn:E; [discriminate Hrun|].
    apply Nat.leb_gt in E. injection Hrun as <- <-.
    exists (grid_calls xx yy g n). split; [apply grid_calls_predict|].
    right. exists xx, yy, g. cbn [log]. rewrite <- app_assoc.
    split; [reflexivity|]. split; [reflexivity|]. split; [exact Hd|].
    split; [lia|reflexivity].
  - rewrite Hplot in Hrun. injection Hrun as _ <-.
    exists (calls ++ [EvPredict arg (inl e1)]). split; [|left; reflexivity].
    rewrite List.filter_app, (returns_not_render calls Hret). reflexivity.
Qed.

Lemma failure_stops_rendering_X1_witness :
  exists calls,
    List.filter is_render calls = []
    /\ (log (snd (plot_decision_boundary exact picky_predict features4 labels4
                    default_title 4 (mk_world 0 [])))
          = log (mk_world 0 []) ++ calls
        \/ exists xx yy g,
             log (snd (plot_decision_boundary exact picky_predict features4 labels4
                         default_title 4 (mk_world 0 [])))
               = log (mk_world 0 []) ++ calls ++ [EvContourf xx yy g]
             /\ calls = grid_calls xx yy g 4
             /\ grid_dims (Z.to_nat 4) g
             /\ (0 <= 4 < 2)%Z
             /\ OtherError "point out of range"
                = contourf_shape_error (Z.to_nat 4) (Z.to_nat 4)).
Proof.
  apply (failure_stops_rendering_X1 exact picky_predict features4 labels4
           default_title 4 (mk_world 0 []) _ (OtherError "point out of range")).
  vm_compute. reflexivity.
Defined.

(** X2. A call returns normally only if validation passed, the feature
    matrix has a row and the grid resolution is at least 2; and then every
    one of the [n * n] logged [predict] calls returned a value, and the
    rendering calls follow them. *)
Theorem normal_return_X2 {St : Type} (A : arith)
    (predict : list (list Q) -> St -> (exn + Q) * St)
    (X Y : ndarray) (title : string) (n : Z) (w w' : world) :
  plot_decision_boundary A predict X Y title n w = (inr tt, w') ->
  validate X Y = inr tt /\ nth 0 (shape X) 0 <> 0 /\ (2 <= n)%Z
  /\ exists xx yy g,
       axes A X n = inr (xx, yy)
       /\ grid_dims (Z.to_nat n) g
       /\ log w' = log w ++ grid_calls xx yy g n ++ render_calls X Y title xx yy g
       /\ Forall (returned predict) (grid_calls xx yy g n).
Proof.
  intros Hrun.
  destruct (validate X Y) as [e0|[]] eqn:Hv.
  { rewrite (plot_validation_failure A predict X Y title n w e0 Hv) in Hrun.
    discriminate Hrun. }
  destruct (Nat.eq_dec (nth 0 (shape X) 0) 0) as [Hr|Hr].
  { rewrite (plot_no_rows A predict X Y title n w Hv Hr) in Hrun. discriminate Hrun. }
  destruct (Z_lt_le_dec n 0) as [Hn|Hn].
  { rewrite (plot_negative_resolution A predict X Y title n w Hv Hr Hn) in Hrun.
    discriminate Hrun. }
  destruct (plot_outcome A predict X Y title n w Hv Hr Hn)
    as (xx & yy & evs & s' & Hax & Lxx & Lyy & Hseq & Hcases).
  destruct Hcases as [(g & Hd & Hevs & Hcg & Hplot)
                     |(e1 & calls & arg & _ & _ & _ & _ & Hplot)].
  2: { rewrite Hplot in Hrun. discriminate Hrun. }
  rewrite (render_run X Y title xx yy g (Z.to_nat n) _ Hd Lxx Lyy) in Hplot.
  rewrite Hplot in Hrun. destruct (2 <=? Z.to_nat n) eqn:E; [|discriminate Hrun].
  apply Nat.leb_le in E. injection Hrun as <-.
  split; [reflexivity|]. split; [exact Hr|]. split; [lia|].
  exists xx, yy, g. split; [exact Hax|]. split; [exact Hd|]. split.
  - cbn [log]. now rewrite Hevs, <- app_assoc.
  - pose proof (call_seq_returned predict (grid_args xx yy n) (pstate w)) as Hret.
    rewrite Hseq in Hret. cbn [fst] in Hret. rewrite <- Hevs. apply Hret.
    rewrite Hevs. apply forallb_is_return_grid_calls.
Qed.

Lemma normal_return_X2_witness :
  validate features4 labels4 = inr tt /\ nth 0 (shape features4) 0 <> 0 /\ (2 <= 4)%Z
  /\ exists xx yy g,
       axes exact features4 4 = inr (xx, yy)
       /\ grid_dims (Z.to_nat 4) g
       /\ log (snd (plot_decision_boundary exact threshold_predict features4 labels4
                      default_title 4 w0))
          = log w0 ++ grid_calls xx yy g 4
            ++ render_calls features4 labels4 default_title xx yy g
       /\ Forall (returned threshold_predict) (grid_calls xx yy g 4).
Proof.
  apply (normal_return_X2 exact threshold_predict features4 labels4 default_title 4 w0).
  vm_compute. reflexivity.
Defined.

(** X3. On a validated matrix with at least one row and a grid resolution of
    at least 2, the only error the call can end in is one [predict] raised
    (the predictor returning scalars): the loop stops at the first raising
    call, which is the last event of the log, the fewer than [n * n] calls
    before it all returned, no rendering call is made, and the error is
    passed on as it is.  The logged calls and the predictor state left are
    those of calling [predict] on the grid records in loop order. *)
Theorem predict_error_propagates_X3 {St : Type} (A : arith)
    (predict : list (list Q) -> St -> (exn + Q) * St)
    (X Y : ndarray) (title : string) (n : Z) (w w' : world) (e : exn) :
  validate X Y = inr tt -> nth 0 (shape X) 0 <> 0 -> (2 <= n)%Z ->
  plot_decision_boundary A predict X Y title n w = (inl e, w') ->
  exists xx yy calls arg,
    axes A X n = inr (xx, yy)
    /\ call_seq predict (grid_args xx yy n) (pstate w)
       = (calls ++ [EvPredict arg (inl e)], pstate w')
    /\ log w' = log w ++ calls ++ [EvPredict arg (inl e)]
    /\ Forall (returned predict) calls
    /\ length calls < Z.to_nat n * Z.to_nat n
    /\ exists s, fst (predict arg s) = inl e.
Proof.
  intros Hv Hr Hn Hrun.
  destruct (plot_outcome A predict X Y title n w Hv Hr ltac:(lia))
    as (xx & yy & evs & s' & Hax & Lxx & Lyy & Hseq & Hcases).
  destruct Hcases as [(g & Hd & Hevs & Hcg & Hplot)
                     |(e1 & calls & arg & -> & Hret & Hshort & _ & Hplot)].
  - rewrite (render_run X Y title xx yy g (Z.to_nat n) _ Hd Lxx Lyy) in Hplot.
    assert (E : (2 <=? Z.to_nat n) = true) by (apply Nat.leb_le; lia).
    rewrite E, Hrun in Hplot. discriminate Hplot.
  - rewrite Hplot in Hrun. injection Hrun as <- <-.
    exists xx, yy, calls, arg. split; [exact Hax|]. split; [exact Hseq|].
    split; [reflexivity|].
    assert (Hfst : fst (call_seq predict (grid_args xx yy n) (pstate w))
                   = calls ++ [EvPredict arg (inl e1)]) by now rewrite Hseq.
    split; [exact (call_seq_prefix_returned predict _ _ _ _ Hfst Hret)|].
    split; [exact Hshort|].
    exact (proj2 (call_seq_last_raised predict _ _ _ _ _ Hfst)).
Qed.

Lemma predict_error_propagates_X3_witness :
  exists xx yy calls arg,
    axes exact features4 4 = inr (xx, yy)
    /\ call_seq picky_predict (grid_args xx yy 4) (pstate (mk_world 0 []))
       = (calls ++ [EvPredict arg (inl (OtherError "point out of range"))],
          pstate (snd (plot_decision_boundary exact picky_predict features4 labels4
                         default_title 4 (mk_world 0 []))))
    /\ log (snd (plot_decision_boundary exact picky_predict features4 labels4
                   default_title 4 (mk_world 0 [])))
       = log (mk_world 0 []) ++ calls
         ++ [EvPredict arg (inl (OtherError "point out of range"))]
    /\ Forall (returned picky_predict) calls
    /\ length calls < Z.to_nat 4 * Z.to_nat 4
    /\ exists s, fst (picky_predict arg s) = inl (OtherError "point out of range").
Proof.
  apply (predict_error_propagates_X3 exact picky_predict features4 labels4
           default_title 4 (mk_world 0 [])).
  - reflexivity.
  - simpl. lia.
  - lia.
  - vm_compute. reflexivity.
Defined.





(** X8. A predictor that raises on every argument is called exactly once
    when the input is valid and the grid resolution is positive: the call
    ends with the error of that first call and nothing else is logged. *)
Theorem failing_predictor_called_once_X8 {St : Type} (A : arith)
    (predict : list (list Q) -> St -> (exn + Q) * St)
    (X Y : ndarray) (title : string) (n : Z) (w : world) :
  always_raises predict ->
  validate X Y = inr tt -> nth 0 (shape X) 0 <> 0 -> (1 <= n)%Z ->
  exists e arg w',
    plot_decision_boundary A predict X Y title n w = (inl e, w')
    /\ log w' = log w ++ [EvPredict arg (inl e)].
Proof.
  intros Hall Hv Hr Hn.
  assert (Hnever : forall ev, ~ returned predict ev).
  { intros ev (a & v & s & _ & Hres).
    destruct (Hall a s) as (e & s' & Hcall). rewrite Hcall in Hres. discriminate Hres. }
  destruct (plot_outcome A predict X Y title n w Hv Hr ltac:(lia))
    as (xx & yy & evs & s' & Hax & Lxx & Lyy & Hseq & Hcases).
  assert (Hfst : fst (call_seq predict (grid_args xx yy n) (pstate w)) = evs)
    by now rewrite Hseq.
  destruct Hcases as [(g & Hd & Hevs & _)
                     |(e & calls & arg & Hevs & Hret & _ & _ & Hplot)].
  - exfalso.
    pose proof (call_seq_returned predict (grid_args xx yy n) (pstate w)) as Hr'.
    rewrite Hfst, Hevs in Hr'.
    specialize (Hr' (forallb_is_return_grid_calls xx yy g n)).
    rewrite List.Forall_forall in Hr'.
    exact (Hnever _ (Hr' _ (grid_call_in xx yy g n 0 0 ltac:(lia) ltac:(lia)))).
  - rewrite Hevs in Hfst.
    pose proof (call_seq_prefix_returned predict _ _ _ _ Hfst Hret) as Hcalls.
    destruct calls as [|ev calls].
    + exists e, arg. eexists. split; [exact Hplot|]. cbn [log]. now rewrite Hevs.
    + exfalso. inversion Hcalls as [|? ? Hev _]. exact (Hnever _ Hev).
Qed.

Lemma failing_predictor_called_once_X8_witness :
  exists e arg w',
    plot_decision_boundary exact failing_predict features4 labels4 default_title 4
      (mk_world 0 []) = (inl e, w')
    /\ log w' = log (mk_world 0 []) ++ [EvPredict arg (inl e)].
Proof.
  apply (failing_predictor_called_once_X8 exact failing_predict features4 labels4
           default_title 4 (mk_world 0 [])).
  - intros a s. unfold failing_predict. eauto.
  - reflexivity.
  - simpl. lia.
  - lia.
Defined.

(** X10. After a successful validation of well-formed arrays the three
    sequences handed to the scatter call have the same length, the number
    of feature rows, and the feature buffer holds two scalars per row. *)
Theorem scatter_arguments_aligned_X10 (X Y : ndarray) :
  wf_ndarray X -> wf_ndarray Y -> validate X Y = inr tt ->
  length (column X 0) = nth 0 (shape X) 0
  /\ length (column X 1) = nth 0 (shape X) 0
  /\ length (data Y) = nth 0 (shape X) 0
  /\ length (data X) = nth 0 (shape X) 0 * 2.
Proof.
  intros HwX HwY Hv. apply validate_ok_inv in Hv as (r & HX & HY & _).
  unfold wf_ndarray in HwX, HwY. rewrite HX in HwX. rewrite HY in HwY.
  rewrite !length_column, HX. simpl in *. repeat split; lia.
Qed.

Lemma scatter_arguments_aligned_X10_witness :
  length (column features4 0) = nth 0 (shape features4) 0
  /\ length (column features4 1) = nth 0 (shape features4) 0
  /\ length (data labels4) = nth 0 (shape features4) 0
  /\ length (data features4) = nth 0 (shape features4) 0 * 2.
Proof.
  apply (scatter_arguments_aligned_X10 features4 labels4); reflexivity.
Defined.
